(** * A web-exposed arithmetic evaluator: app.py

    The program is one Flask module with three routes.  [POST /calculate]
    reads a JSON body, checks the [expression] field against a character
    whitelist and hands it to Python's built-in [eval]; [GET /health]
    returns a fixed payload; [GET /] renders a template.

    The definitions come first:
    - the Python objects the handler manipulates (JSON values, exceptions,
      the values [eval] can return on the whitelisted alphabet);
    - the handler [calculate], written over an arbitrary evaluator, with its
      two nested [try] blocks;
    - a model of what [eval] does on strings over the whitelisted alphabet
      (scanner, expression grammar, arithmetic on [int] and [float], and
      the limits of CPython 3.11 on nesting, on the digits of an integer
      and on its stacks);
    - a reference parser for four-operator arithmetic, used to state what
      "well-formed" and "standard precedence" mean.

    The theorems follow: the reference grammar is part of Python's, what
    Python's grammar accepts is balanced, the bounds of the parsers are
    enough, the claims about the endpoints, and further properties of the
    handler and of the evaluation it relies on. *)

From Stdlib Require Import ZArith List String Ascii Bool Lia.
From Stdlib Require Import Floats.SpecFloat.
Import ListNotations.

Local Open Scope Z_scope.

(** * Python objects *)

(** [float] is an IEEE-754 binary64 number. *)
Definition float : Type := spec_float.
Definition prec : Z := 53.
Definition emax : Z := 1024.

Definition inf : float := S754_infinity false.
Definition neg_inf : float := S754_infinity true.
Definition nan : float := S754_nan.

(** [x == y] on floats. *)
Definition float_eq (x y : float) : bool := SFeqb x y.

(** The classes of exception the handler tells apart, some the model
    raises, and the rest.  All are subclasses of [Exception]; an
    [OtherException] is a subclass of none of the named ones. *)
Inductive exn_class : Type :=
| ZeroDivisionError
| SyntaxError
| TypeError
| OverflowError
| AttributeError
| OtherException (name : string).

(** An exception: its class and [str(e)]. *)
Record exn : Type := Exn { exn_cls : exn_class; exn_str : string }.

Definition is_ZeroDivisionError (e : exn) : bool :=
  match exn_cls e with ZeroDivisionError => true | _ => false end.

Definition is_SyntaxError (e : exn) : bool :=
  match exn_cls e with SyntaxError => true | _ => false end.

(** The result of running a piece of Python: a value or a raised exception. *)
Inductive outcome (A : Type) : Type :=
| Return (a : A)
| Raise (e : exn).
Arguments Return {A} a.
Arguments Raise {A} e.

Definition bind {A B : Type} (m : outcome A) (k : A -> outcome B) : outcome B :=
  match m with
  | Return a => k a
  | Raise e => Raise e
  end.

Notation "x <- m ;; k" := (bind m (fun x => k))
  (at level 61, m at next level, right associativity).

Definition raise {A : Type} (c : exn_class) (msg : string) : outcome A :=
  Raise (Exn c msg).

(** What [request.get_json()] yields, and what [jsonify] is given.  A
    string is the list of its characters; a character outside ASCII is kept
    as its bytes, none of which is whitelisted. *)
#[warnings="-register-all"]
Inductive json : Type :=
| JNull
| JBool (b : bool)
| JInt (n : Z)
| JFloat (x : float)
| JStr (s : string)
| JArr (items : list json)
| JObj (fields : list (string * json)).

(** The objects [eval] can return for a string over the whitelisted
    alphabet: numbers, the empty tuple [()] and [...] .  A complex number
    arises from a negative base raised to a fractional power. *)
Inductive value : Type :=
| VInt (n : Z)
| VFloat (x : float)
| VComplex (re im : float)
| VEmptyTuple
| VEllipsis.

Definition type_name (j : json) : string :=
  match j with
  | JNull => "NoneType"
  | JBool _ => "bool"
  | JInt _ => "int"
  | JFloat _ => "float"
  | JStr _ => "str"
  | JArr _ => "list"
  | JObj _ => "dict"
  end.

Definition value_type_name (v : value) : string :=
  match v with
  | VInt _ => "int"
  | VFloat _ => "float"
  | VComplex _ _ => "complex"
  | VEmptyTuple => "tuple"
  | VEllipsis => "ellipsis"
  end.

Definition is_zero (x : float) : bool :=
  match x with S754_zero _ => true | _ => false end.

(** [bool(x)], as [not expression] uses it. *)
Definition truthy (j : json) : bool :=
  match j with
  | JNull => false
  | JBool b => b
  | JInt n => negb (n =? 0)
  | JFloat x => negb (is_zero x)
  | JStr s => negb (String.eqb s "")
  | JArr items => match items with [] => false | _ => true end
  | JObj fields => match fields with [] => false | _ => true end
  end.

(** A dict is kept as the list of its items in insertion order. *)
Fixpoint lookup (key : string) (fields : list (string * json)) : option json :=
  match fields with
  | [] => None
  | (k, v) :: rest => if String.eqb k key then Some v else lookup key rest
  end.

Definition has_field (key : string) (j : json) : bool :=
  match j with
  | JObj fields => match lookup key fields with Some _ => true | None => false end
  | _ => false
  end.

(** [data.get(key, default)]: only a dict has the method. *)
Definition get (data : json) (key : string) (default : json) : outcome json :=
  match data with
  | JObj fields =>
      Return (match lookup key fields with Some v => v | None => default end)
  | _ => raise AttributeError
           ("'" ++ type_name data ++ "' object has no attribute 'get'")
  end.

(** [for c in x]: the characters of a string, the items of a list, the keys
    of a dict. *)
Definition iterate (x : json) : outcome (list json) :=
  match x with
  | JStr s => Return (map (fun c => JStr (String c "")) (list_ascii_of_string s))
  | JArr items => Return items
  | JObj fields => Return (map (fun kv => JStr (fst kv)) fields)
  | _ => raise TypeError ("'" ++ type_name x ++ "' object is not iterable")
  end.

(** [allowed_chars = set('0123456789+-*/.() ')] *)
Definition allowed_chars : list ascii :=
  list_ascii_of_string "0123456789+-*/.() ".

Definition allowed (c : ascii) : bool :=
  existsb (Ascii.eqb c) allowed_chars.

(** [c in allowed_chars]: the set holds one-character strings; looking up a
    list or a dict fails because it cannot be hashed. *)
Definition in_allowed_chars (c : json) : outcome bool :=
  match c with
  | JStr (String a "") => Return (allowed a)
  | JArr _ | JObj _ =>
      raise TypeError ("unhashable type: '" ++ type_name c ++ "'")
  | _ => Return false
  end.

(** [all(c in allowed_chars for c in items)]: stops at the first [False],
    and at the first exception. *)
Fixpoint all_in_allowed_chars (items : list json) : outcome bool :=
  match items with
  | [] => Return true
  | c :: rest =>
      ok <- in_allowed_chars c ;;
      if ok then all_in_allowed_chars rest else Return false
  end.

(** [isinstance(result, float) and (result == float('inf') or
    result == float('-inf'))] *)
Definition is_infinite_float (result : value) : bool :=
  match result with
  | VFloat x => float_eq x inf || float_eq x neg_inf
  | _ => false
  end.

(** [sys.int_info.default_max_str_digits]: CPython 3.11 converts no [int]
    of more digits to or from a decimal string. *)
Definition max_str_digits : Z := 4300.

(** What Flask's JSON provider makes of a result: a tuple is written as an
    array, [nan] and the infinities are written out, an [int] of more than
    [max_str_digits] digits cannot be written, and a type the provider does
    not know is refused. *)
Definition to_json (v : value) : outcome json :=
  match v with
  | VInt n =>
      if Z.abs n <? 10 ^ max_str_digits then Return (JInt n)
      else raise (OtherException "ValueError")
             "Exceeds the limit (4300 digits) for integer string conversion; use sys.set_int_max_str_digits() to increase the limit"
  | VFloat x => Return (JFloat x)
  | VEmptyTuple => Return (JArr [])
  | VComplex _ _ | VEllipsis =>
      raise TypeError
        ("Object of type " ++ value_type_name v ++ " is not JSON serializable")
  end.

(** * Responses *)

Record response : Type := Response { body : json; status : Z }.

(** [jsonify({'error': msg}), code] *)
Definition error_response (msg : string) (code : Z) : response :=
  Response (JObj [("error"%string, JStr msg)]) code.

(** [jsonify({'result': result})], with Flask's default status. *)
Definition result_response (result : value) : outcome response :=
  j <- to_json result ;;
  Return (Response (JObj [("result"%string, j)]) 200).

(** The error kinds of the specification, as the responses that carry
    them. *)

Definition EmptyExpression : response := error_response "Empty expression" 400.
Definition InvalidCharacters : response :=
  error_response "Invalid characters in expression" 400.
Definition DivisionByZero : response := error_response "Division by zero" 400.
Definition InvalidSyntax : response :=
  error_response "Invalid expression syntax" 400.
Definition ServerError (msg : string) : response :=
  error_response ("Server error: " ++ msg) 500.

(** The body [{"expression": s}]. *)
Definition post (s : string) : outcome json :=
  Return (JObj [("expression"%string, JStr s)]).

(** A request whose [expression] is the string [s]. *)
Definition posts (fields : list (string * json)) (s : string) : Prop :=
  lookup "expression" fields = Some (JStr s).

Definition whitelisted (s : string) : bool :=
  forallb allowed (list_ascii_of_string s).

(** A success carries [result] alone, a failure [error] alone. *)
Definition result_xor_error (r : response) : Prop :=
  (status r = 200 /\ has_field "result" (body r) = true
                  /\ has_field "error" (body r) = false) \/
  (status r <> 200 /\ has_field "error" (body r) = true
                   /\ has_field "result" (body r) = false).


(** * The handlers *)

(** A run of [calculate]: the response, and the arguments [eval] was
    called with (none or one). *)
Record run : Type := Run { resp : response; eval_calls : list json }.

Section Handlers.

(** Python's [eval] on a [str]. *)
Variable eval : string -> outcome value.

(** [eval(x)]: anything but a string is refused. *)
Definition builtin_eval (x : json) : outcome value :=
  match x with
  | JStr s => eval s
  | _ => raise TypeError "eval() arg 1 must be a string, bytes or code object"
  end.

(** The inner [try] block, lines 30-41: evaluate, classify, serialise. *)
Definition evaluate (expression : json) : response :=
  match
    (result <- builtin_eval expression ;;
     if is_infinite_float result
     then Return (error_response "Division by zero" 400)
     else result_response result)
  with
  | Return r => r
  | Raise e =>
      if is_ZeroDivisionError e then error_response "Division by zero" 400
      else if is_SyntaxError e then error_response "Invalid expression syntax" 400
      else error_response (exn_str e) 400
  end.

(** What precedes the inner block, lines 18-27: either a response at once,
    or the expression to evaluate. *)
Inductive checked : Type :=
| Reply (r : response)
| Evaluate (expression : json).

Definition check (request : outcome json) : outcome checked :=
  data <- request ;;
  expression <- get data "expression" (JStr "") ;;
  if negb (truthy expression)
  then Return (Reply (error_response "Empty expression" 400))
  else
    ok <- (items <- iterate expression ;; all_in_allowed_chars items) ;;
    if negb ok
    then Return (Reply (error_response "Invalid characters in expression" 400))
    else Return (Evaluate expression).

(** [calculate], lines 15-44.  [request] is what [request.get_json()]
    does: it returns the parsed body or raises. *)
Definition handle (request : outcome json) : run :=
  match check request with
  | Return (Reply r) => Run r []
  | Return (Evaluate expression) => Run (evaluate expression) [expression]
  | Raise e => Run (error_response ("Server error: " ++ exn_str e) 500) []
  end.

Definition calculate (request : outcome json) : response :=
  resp (handle request).

(** [health], lines 47-49. *)
Definition health : response :=
  Response (JObj [("status"%string, JStr "healthy")]) 200.

End Handlers.

(** The three routes, and a server that answers requests one after the
    other; no handler reads or writes anything but its request. *)
Inductive http_request : Type :=
| GET_index
| POST_calculate (json_body : outcome json)
| GET_health.

Inductive http_response : Type :=
| Page (template : string)
| Json (r : response).

Definition serve (eval : string -> outcome value) (req : http_request)
  : http_response :=
  match req with
  | GET_index => Page "index.html"
  | POST_calculate json_body => Json (calculate eval json_body)
  | GET_health => Json health
  end.

Definition serve_all (eval : string -> outcome value)
  (reqs : list http_request) : list http_response :=
  map (serve eval) reqs.


(** * Python arithmetic on the values above *)

Definition fadd : float -> float -> float := SFadd prec emax.
Definition fsub : float -> float -> float := SFsub prec emax.
Definition fmul : float -> float -> float := SFmul prec emax.
Definition fdiv : float -> float -> float := SFdiv prec emax.
Definition fneg : float -> float := SFopp.

(** The float nearest to [a / b] for [0 <= a] and [0 < b], ties to even,
    with the sign [neg]: the rounding of a float literal and of
    [int / int]. *)
Definition float_of_ratio (neg : bool) (a b : Z) : float :=
  match a with
  | Z0 => S754_zero neg
  | _ =>
      let '(q, e, l) := SFdiv_core_binary prec emax a 0 b 0 in
      binary_round_aux prec emax neg q e l
  end.

(** The float nearest to an integer; an infinity when it is out of range. *)
Definition float_of_int (n : Z) : float := binary_normalize prec emax n 0 false.

Definition is_infinity (x : float) : bool :=
  match x with S754_infinity _ => true | _ => false end.

Inductive unop : Type := UAdd | USub.
Inductive binop : Type := Add | Sub | Mult | Div | FloorDiv | Pow.

Definition binop_symbol (op : binop) : string :=
  match op with
  | Add => "+"
  | Sub => "-"
  | Mult => "*"
  | Div => "/"
  | FloorDiv => "//"
  | Pow => "** or pow()"
  end.

(** How a call passes its argument: [f(x)], [f( *x)], [f( **x)]. *)
Inductive argform : Type := Positional | Starred | DoubleStarred.

(** The tokens of a source text over the whitelisted alphabet; the scanner
    is further down.  A number as written: a run of digits, and the digits
    after the point when there is one ([1.] has none, [.5] has no digits
    before). *)
Record literal : Type := Literal { whole : list ascii; fraction : option (list ascii) }.

Inductive token : Type :=
| NUMBER (lit : literal)
| PLUS | MINUS | STAR | SLASH | DOUBLESTAR | DOUBLESLASH
| LPAR | RPAR | DOT | ELLIPSIS
| ERRORTOKEN (c : ascii).

(** What the model leaves to the interpreter it runs on: arithmetic that
    CPython computes with the C library ([**] and [//] on floats, [**] with
    a negative exponent) or on complex numbers, and integer powers too
    large to be worked out here; the text of the error for a starred call
    argument; source text outside the whitelisted alphabet; and the
    exception, a [MemoryError] or a [RecursionError], with which the parser
    or the compiler gives up on a line that is too long or too deep for its
    stack.  Every statement below holds for all of them. *)
Record interpreter : Type := Interpreter {
  other_arith : binop -> value -> value -> outcome value;
  star_error_text : value -> argform -> value -> string;
  other_source : string -> outcome value;
  resource_error : list token -> option exn
}.

Definition dq : string := String (ascii_of_nat 34) "".

Definition unsupported {A : Type} (op : binop) (l r : value) : outcome A :=
  raise TypeError
    ("unsupported operand type(s) for " ++ binop_symbol op ++ ": '"
       ++ value_type_name l ++ "' and '" ++ value_type_name r ++ "'").

(** [PyLong_AsDouble] *)
Definition int_to_float (n : Z) : outcome float :=
  let x := float_of_int n in
  if is_infinity x
  then raise OverflowError "int too large to convert to float"
  else Return x.

(** [int op int] for [+ - * /]: exact, except that [/] rounds the quotient
    once. *)
Definition int_arith (op : binop) (a b : Z) : option (outcome value) :=
  match op with
  | Add => Some (Return (VInt (a + b)))
  | Sub => Some (Return (VInt (a - b)))
  | Mult => Some (Return (VInt (a * b)))
  | Div =>
      Some (if b =? 0 then raise ZeroDivisionError "division by zero"
            else
              let x := float_of_ratio (xorb (a <? 0) (b <? 0)) (Z.abs a) (Z.abs b) in
              if is_infinity x
              then raise OverflowError "integer division result too large for a float"
              else Return (VFloat x))
  | _ => None
  end.

(** [float op float] for [+ - * /]: the IEEE operation; a zero divisor
    raises. *)
Definition float_arith (op : binop) (x y : float) : option (outcome value) :=
  match op with
  | Add => Some (Return (VFloat (fadd x y)))
  | Sub => Some (Return (VFloat (fsub x y)))
  | Mult => Some (Return (VFloat (fmul x y)))
  | Div =>
      Some (if is_zero y then raise ZeroDivisionError "float division by zero"
            else Return (VFloat (fdiv x y)))
  | _ => None
  end.

Definition as_float (v : value) : option (outcome float) :=
  match v with
  | VInt n => Some (int_to_float n)
  | VFloat x => Some (Return x)
  | _ => None
  end.

(** [+ - * /] on [int] and [float] operands; with a float on either side
    both are converted first. *)
Definition real_arith (op : binop) (l r : value) : option (outcome value) :=
  match l, r with
  | VInt a, VInt b => int_arith op a b
  | _, _ =>
      match as_float l, as_float r, float_arith op nan nan with
      | Some ox, Some oy, Some _ =>
          Some (x <- ox ;; y <- oy ;;
                match float_arith op x y with
                | Some o => o
                | None => Return (VFloat nan)
                end)
      | _, _, _ => None
      end
  end.

Definition fits_ssize_t (n : Z) : bool :=
  (- 2 ^ 63 <=? n) && (n <? 2 ^ 63).

(** [seq * n] for the empty tuple. *)
Definition repeat_empty (n : value) : outcome value :=
  match n with
  | VInt k =>
      if fits_ssize_t k then Return VEmptyTuple
      else raise OverflowError "cannot fit 'int' into an index-sized integer"
  | _ => raise TypeError
           ("can't multiply sequence by non-int of type '"
              ++ value_type_name n ++ "'")
  end.

(** An integer power of at most 2^16 bits: one the interpreter works out
    in no time and with little memory. *)
Definition small_power (a b : Z) : bool :=
  b * Z.log2_up (Z.abs a + 1) <=? 2 ^ 16.

Section Arithmetic.

Variable py : interpreter.

Definition is_number (v : value) : bool :=
  match v with VInt _ | VFloat _ | VComplex _ _ => true | _ => false end.

Definition is_complex (v : value) : bool :=
  match v with VComplex _ _ => true | _ => false end.

(** [l op r] on two numbers. *)
Definition number_arith (op : binop) (l r : value) : outcome value :=
  if is_complex l || is_complex r then other_arith py op l r
  else
    match op, l, r with
    | FloorDiv, VInt a, VInt b =>
        if b =? 0
        then raise ZeroDivisionError "integer division or modulo by zero"
        else Return (VInt (a / b))
    | Pow, VInt a, VInt b =>
        if (0 <=? b) && small_power a b then Return (VInt (a ^ b))
        else other_arith py op l r
    | _, _, _ =>
        match real_arith op l r with
        | Some o => o
        | None => other_arith py op l r
        end
    end.

(** [l op r] *)
Definition binary (op : binop) (l r : value) : outcome value :=
  match op, l, r with
  | Add, VEmptyTuple, VEmptyTuple => Return VEmptyTuple
  | Add, VEmptyTuple, _ =>
      raise TypeError
        ("can only concatenate tuple (not " ++ dq ++ value_type_name r ++ dq
           ++ ") to tuple")
  | Mult, VEmptyTuple, _ => repeat_empty r
  | Mult, _, VEmptyTuple => repeat_empty l
  | _, _, _ =>
      if is_number l && is_number r then number_arith op l r
      else unsupported op l r
  end.

(** [+x], [-x] *)
Definition unary (op : unop) (x : value) : outcome value :=
  match x with
  | VInt n => Return (match op with UAdd => x | USub => VInt (- n) end)
  | VFloat a => Return (match op with UAdd => x | USub => VFloat (fneg a) end)
  | VComplex re im =>
      Return (match op with UAdd => x | USub => VComplex (fneg re) (fneg im) end)
  | _ => raise TypeError
           ("bad operand type for unary "
              ++ match op with UAdd => "+" | USub => "-" end
              ++ ": '" ++ value_type_name x ++ "'")
  end.

(** Calling one of these values: none is callable.  An argument after [*]
    must be iterable (only the empty tuple is), one after [**] a mapping. *)
Definition call (f : value) (arg : option (argform * value)) : outcome value :=
  match arg with
  | None | Some (Positional, _) | Some (Starred, VEmptyTuple) =>
      raise TypeError ("'" ++ value_type_name f ++ "' object is not callable")
  | Some (form, a) => raise TypeError (star_error_text py f form a)
  end.

End Arithmetic.

(** * Expressions *)

(** The syntax trees the grammar can build on the whitelisted alphabet.
    A call has no argument or one. *)
Inductive expr : Type :=
| Constant (v : value)
| EmptyTuple
| UnaryOp (op : unop) (operand : expr)
| BinOp (l : expr) (op : binop) (r : expr)
| Call0 (func : expr)
| Call1 (func : expr) (form : argform) (arg : expr).

Section Evaluation.

Variable py : interpreter.

(** Evaluation: operands left to right, the callee before its argument. *)
Fixpoint eval_expr (e : expr) : outcome value :=
  match e with
  | Constant v => Return v
  | EmptyTuple => Return VEmptyTuple
  | UnaryOp op operand => x <- eval_expr operand ;; unary op x
  | BinOp l op r =>
      x <- eval_expr l ;; y <- eval_expr r ;; binary py op x y
  | Call0 func => f <- eval_expr func ;; call py f None
  | Call1 func form arg =>
      f <- eval_expr func ;; a <- eval_expr arg ;; call py f (Some (form, a))
  end.

End Evaluation.

(** * The scanner *)

Definition is_digit (c : ascii) : bool :=
  let n := Z.of_N (N_of_ascii c) in (48 <=? n) && (n <=? 57).

(** The number being read, if any. *)
Inductive pending : Type :=
| Idle
| InWhole (ds : list ascii)
| InFraction (ds fs : list ascii).

Definition push (p : pending) (c : ascii) : pending :=
  match p with
  | Idle => InWhole [c]
  | InWhole ds => InWhole (ds ++ [c])%list
  | InFraction ds fs => InFraction ds (fs ++ [c])%list
  end.

Definition flush (p : pending) (rest : list token) : list token :=
  match p with
  | Idle => rest
  | InWhole ds => NUMBER (Literal ds None) :: rest
  | InFraction ds fs => NUMBER (Literal ds (Some fs)) :: rest
  end.

(** Tokens of a line, longest match first: a point after digits belongs to
    the number; a point before a digit starts one; three points are one
    token; [**] and [//] are one token each; spaces separate. *)
Fixpoint scan (p : pending) (cs : list ascii) : list token :=
  match cs with
  | [] => flush p []
  | c :: rest =>
      if is_digit c then scan (push p c) rest
      else if Ascii.eqb c "." then
        match p with
        | InWhole ds => scan (InFraction ds []) rest
        | _ =>
            flush p
              match rest with
              | "."%char :: "."%char :: rest' => ELLIPSIS :: scan Idle rest'
              | d :: _ =>
                  if is_digit d then scan (InFraction [] []) rest
                  else DOT :: scan Idle rest
              | [] => [DOT]
              end
        end
      else
        flush p
          (if Ascii.eqb c " " then scan Idle rest
           else if Ascii.eqb c "+" then PLUS :: scan Idle rest
           else if Ascii.eqb c "-" then MINUS :: scan Idle rest
           else if Ascii.eqb c "(" then LPAR :: scan Idle rest
           else if Ascii.eqb c ")" then RPAR :: scan Idle rest
           else if Ascii.eqb c "*" then
             match rest with
             | "*"%char :: rest' => DOUBLESTAR :: scan Idle rest'
             | _ => STAR :: scan Idle rest
             end
           else if Ascii.eqb c "/" then
             match rest with
             | "/"%char :: rest' => DOUBLESLASH :: scan Idle rest'
             | _ => SLASH :: scan Idle rest
             end
           else ERRORTOKEN c :: scan Idle rest)
  end.

Definition tokens (source : string) : list token :=
  scan Idle (list_ascii_of_string source).

Definition digits_value (ds : list ascii) : Z :=
  fold_left (fun acc c => 10 * acc + (Z.of_N (N_of_ascii c) - 48)) ds 0.

(** The number a literal denotes: an [int] without a point, otherwise the
    nearest [float]. *)
Definition number_value (lit : literal) : value :=
  match fraction lit with
  | None => VInt (digits_value (whole lit))
  | Some fs =>
      VFloat (float_of_ratio false (digits_value (whole lit ++ fs)%list)
                (10 ^ Z.of_nat (List.length fs)))
  end.

(** Python refuses an integer literal that starts with [0] unless all its
    digits are [0]. *)
Definition leading_zero (lit : literal) : bool :=
  match fraction lit, whole lit with
  | None, "0"%char :: _ => negb (digits_value (whole lit) =? 0)
  | _, _ => false
  end.

(** The value of a literal the grammar accepts.  The limit on the digits
    of an integer literal is applied to the tokens, in [py_eval]. *)
Definition py_number (lit : literal) : option value :=
  if leading_zero lit then None else Some (number_value lit).

(** * Parsing *)

Definition parser (T : Type) : Type := list token -> option (T * list token).

Section Chain.

Context {T : Type}.
Variable ops : token -> option (T -> T -> T).
Variable operand : parser T.

(** [(op operand)*] after a first operand, grouping to the left.  [n]
    bounds the number of operators. *)
Fixpoint chain_rest (n : nat) (acc : T) (ts : list token) : option (T * list token) :=
  match ts with
  | t :: ts1 =>
      match ops t with
      | Some mk =>
          match n with
          | O => None
          | S n' =>
              match operand ts1 with
              | Some (r, ts2) => chain_rest n' (mk acc r) ts2
              | None => None
              end
          end
      | None => Some (acc, ts)
      end
  | [] => Some (acc, [])
  end.

Definition chain (n : nat) : parser T :=
  fun ts =>
    match operand ts with
    | Some (l, ts1) => chain_rest n l ts1
    | None => None
    end.

End Chain.

(** ** Python's expression grammar on these tokens

    sum: sum ('+' | '-') term | term
    term: term ('*' | '/' | '//') factor | factor
    factor: ('+' | '-') factor | power
    power: primary '**' factor | primary
    primary: primary '(' [argument] ')' | atom
    argument: sum | '*' sum | '**' sum
    atom: NUMBER | '...' | '(' ')' | '(' sum ')' *)

Definition sum_op (t : token) : option (expr -> expr -> expr) :=
  match t with
  | PLUS => Some (fun l r => BinOp l Add r)
  | MINUS => Some (fun l r => BinOp l Sub r)
  | _ => None
  end.

Definition term_op (t : token) : option (expr -> expr -> expr) :=
  match t with
  | STAR => Some (fun l r => BinOp l Mult r)
  | SLASH => Some (fun l r => BinOp l Div r)
  | DOUBLESLASH => Some (fun l r => BinOp l FloorDiv r)
  | _ => None
  end.

Definition closing (p : option (expr * list token)) : option (expr * list token) :=
  match p with
  | Some (e, RPAR :: ts) => Some (e, ts)
  | _ => None
  end.

Definition py_atom (sum : parser expr) : parser expr :=
  fun ts =>
    match ts with
    | NUMBER lit :: ts1 =>
        match py_number lit with
        | Some v => Some (Constant v, ts1)
        | None => None
        end
    | ELLIPSIS :: ts1 => Some (Constant VEllipsis, ts1)
    | LPAR :: RPAR :: ts1 => Some (EmptyTuple, ts1)
    | LPAR :: ts1 => closing (sum ts1)
    | _ => None
    end.

(** The calls that follow an atom. *)
Fixpoint call_rest (sum : parser expr) (n : nat) (f : expr) (ts : list token)
  : option (expr * list token) :=
  match ts with
  | LPAR :: ts0 =>
      match n with
      | O => None
      | S n' =>
          match ts0 with
          | RPAR :: ts1 => call_rest sum n' (Call0 f) ts1
          | STAR :: ts1 =>
              match closing (sum ts1) with
              | Some (a, ts2) => call_rest sum n' (Call1 f Starred a) ts2
              | None => None
              end
          | DOUBLESTAR :: ts1 =>
              match closing (sum ts1) with
              | Some (a, ts2) => call_rest sum n' (Call1 f DoubleStarred a) ts2
              | None => None
              end
          | _ =>
              match closing (sum ts0) with
              | Some (a, ts2) => call_rest sum n' (Call1 f Positional a) ts2
              | None => None
              end
          end
      end
  | _ => Some (f, ts)
  end.

(** [primary '**' factor | primary] *)
Definition py_power (sum factor : parser expr) (n : nat) : parser expr :=
  fun ts =>
    match py_atom sum ts with
    | Some (a, ts1) =>
        match call_rest sum n a ts1 with
        | Some (p, DOUBLESTAR :: ts2) =>
            match factor ts2 with
            | Some (e, ts3) => Some (BinOp p Pow e, ts3)
            | None => None
            end
        | found => found
        end
    | None => None
    end.

Fixpoint py_factor (n : nat) (ts : list token) : option (expr * list token) :=
  match n with
  | O => None
  | S n' =>
      let sum := chain sum_op (chain term_op (py_factor n') n') n' in
      match ts with
      | PLUS :: ts1 =>
          match py_factor n' ts1 with
          | Some (e, ts2) => Some (UnaryOp UAdd e, ts2)
          | None => None
          end
      | MINUS :: ts1 =>
          match py_factor n' ts1 with
          | Some (e, ts2) => Some (UnaryOp USub e, ts2)
          | None => None
          end
      | _ => py_power sum (py_factor n') n' ts
      end
  end.

Definition py_term (n : nat) : parser expr := chain term_op (py_factor n) n.
Definition py_sum (n : nat) : parser expr := chain sum_op (py_term n) n.

(** The whole input must be one expression. *)
Definition py_parse (ts : list token) : option expr :=
  match py_sum (S (List.length ts)) ts with
  | Some (e, []) => Some e
  | _ => None
  end.

(** * The evaluator *)

(** ** The limits of CPython 3.11 *)

(** [MAXLEVEL] of the tokenizer: a [(] inside 200 open ones is refused. *)
Definition MAXLEVEL : nat := 200.

(** Some [(] of [ts] comes at depth [MAXLEVEL] or deeper, starting at depth
    [d]. *)
Fixpoint too_deep (d : nat) (ts : list token) : bool :=
  match ts with
  | [] => false
  | LPAR :: rest => (MAXLEVEL <=? d)%nat || too_deep (S d) rest
  | RPAR :: rest => too_deep (Nat.pred d) rest
  | _ :: rest => too_deep d rest
  end.

(** An integer literal of more than [max_str_digits] digits.  A row of
    zeros of any length is read as [0]. *)
Definition long_literal (t : token) : bool :=
  match t with
  | NUMBER (Literal ds None) =>
      (max_str_digits <? Z.of_nat (List.length ds))
      && negb (digits_value ds =? 0)
  | _ => false
  end.

(** The line is refused for its size: both cases are a [SyntaxError]. *)
Definition syntax_limit (ts : list token) : bool :=
  too_deep 0 ts || existsb long_literal ts.

(** The number of tokens up to which the stacks of the parser and of the
    compiler suffice whatever the tokens are.  (In CPython 3.11.2 they
    hold for 2000 unary minuses in a row and for a sum of 2000 terms, and
    overflow for 3000 of either.) *)
Definition safe_tokens : nat := 100.

(** The exception of a stack that overflows, if one does. *)
Definition stack_error (py : interpreter) (ts : list token) : option exn :=
  if (List.length ts <=? safe_tokens)%nat then None else resource_error py ts.

(** ** [eval] *)

(** [eval(source)] for a [str]: compile, then evaluate.  Leading and inner
    spaces are skipped.  The text of a [SyntaxError], which the handler does
    not read, is the same throughout. *)
Definition py_eval (py : interpreter) (source : string) : outcome value :=
  if forallb allowed (list_ascii_of_string source) then
    match stack_error py (tokens source) with
    | Some e => Raise e
    | None =>
        if syntax_limit (tokens source) then raise SyntaxError "invalid syntax"
        else
          match py_parse (tokens source) with
          | Some e => eval_expr py e
          | None => raise SyntaxError "invalid syntax"
          end
    end
  else other_source py source.

(** * The reference: four-operator arithmetic

    What the specification calls a well-formed arithmetic expression:
    decimal literals, the binary operators [+ - * /], unary minus and
    parentheses, with [*] and [/] binding tighter than [+] and [-], and
    operators of one level grouping to the left. *)

Inductive operator : Type := Plus | Minus | Times | Divide.

Inductive arith : Type :=
| Lit (lit : literal)
| Neg (a : arith)
| Bin (l : arith) (op : operator) (r : arith).

Definition additive (t : token) : option (arith -> arith -> arith) :=
  match t with
  | PLUS => Some (fun l r => Bin l Plus r)
  | MINUS => Some (fun l r => Bin l Minus r)
  | _ => None
  end.

Definition multiplicative (t : token) : option (arith -> arith -> arith) :=
  match t with
  | STAR => Some (fun l r => Bin l Times r)
  | SLASH => Some (fun l r => Bin l Divide r)
  | _ => None
  end.

Definition spec_atom (sum : parser arith) : parser arith :=
  fun ts =>
    match ts with
    | NUMBER lit :: ts1 => Some (Lit lit, ts1)
    | LPAR :: ts1 =>
        match sum ts1 with
        | Some (a, RPAR :: ts2) => Some (a, ts2)
        | _ => None
        end
    | _ => None
    end.

Fixpoint spec_factor (n : nat) (ts : list token) : option (arith * list token) :=
  match n with
  | O => None
  | S n' =>
      match ts with
      | MINUS :: ts1 =>
          match spec_factor n' ts1 with
          | Some (a, ts2) => Some (Neg a, ts2)
          | None => None
          end
      | _ =>
          spec_atom
            (chain additive (chain multiplicative (spec_factor n') n') n') ts
      end
  end.

Definition spec_term (n : nat) : parser arith :=
  chain multiplicative (spec_factor n) n.
Definition spec_sum (n : nat) : parser arith := chain additive (spec_term n) n.

Definition spec_parse (ts : list token) : option arith :=
  match spec_sum (S (List.length ts)) ts with
  | Some (a, []) => Some a
  | _ => None
  end.

(** A source text is well-formed arithmetic when the reference parser
    accepts it. *)
Definition well_formed (source : string) : bool :=
  match spec_parse (tokens source) with Some _ => true | None => false end.

Definition binop_of (op : operator) : binop :=
  match op with
  | Plus => Add
  | Minus => Sub
  | Times => Mult
  | Divide => Div
  end.

(** One operator applied to two numbers. *)
Definition apply_operator (op : operator) (x y : value) : outcome value :=
  match real_arith (binop_of op) x y with
  | Some o => o
  | None => unsupported (binop_of op) x y
  end.

(** Evaluation in the standard order: the tree the reference parser built,
    bottom up, operands left to right. *)
Fixpoint arith_eval (a : arith) : outcome value :=
  match a with
  | Lit lit => Return (number_value lit)
  | Neg b => x <- arith_eval b ;; unary USub x
  | Bin l op r => x <- arith_eval l ;; y <- arith_eval r ;; apply_operator op x y
  end.

(** No integer literal of the expression has a redundant leading zero. *)
Fixpoint plain_literals (a : arith) : bool :=
  match a with
  | Lit lit => negb (leading_zero lit)
  | Neg b => plain_literals b
  | Bin l _ r => plain_literals l && plain_literals r
  end.

(** The Python tree of a reference tree. *)
Fixpoint to_expr (a : arith) : expr :=
  match a with
  | Lit lit => Constant (number_value lit)
  | Neg b => UnaryOp USub (to_expr b)
  | Bin l op r => BinOp (to_expr l) (binop_of op) (to_expr r)
  end.

(** * Shapes of a source text *)

(** ** On the tokens *)

(** Parentheses: [nesting d ts] is the depth after [ts], starting at depth
    [d], if no [)] comes without its [(]. *)
Fixpoint nesting (d : nat) (ts : list token) : option nat :=
  match ts with
  | [] => Some d
  | LPAR :: rest => nesting (S d) rest
  | RPAR :: rest => match d with O => None | S d' => nesting d' rest end
  | _ :: rest => nesting d rest
  end.

Definition balanced (ts : list token) : bool :=
  match nesting 0 ts with Some O => true | _ => false end.

Definition is_operator (t : token) : bool :=
  match t with
  | PLUS | MINUS | STAR | SLASH | DOUBLESTAR | DOUBLESLASH => true
  | _ => false
  end.

(** The last token is a binary operator. *)
Definition trailing_operator (ts : list token) : bool :=
  match rev ts with
  | t :: _ => is_operator t
  | [] => false
  end.

(** ** On the characters *)

Definition is_space (c : ascii) : bool :=
  let n := Z.of_N (N_of_ascii c) in (n =? 32) || ((9 <=? n) && (n <=? 13)).

Fixpoint drop_spaces (cs : list ascii) : list ascii :=
  match cs with
  | c :: rest => if is_space c then drop_spaces rest else cs
  | [] => []
  end.

(** What the specification calls trimming: leading and trailing white
    space removed. *)
Definition strip (s : string) : string :=
  string_of_list_ascii
    (rev (drop_spaces (rev (drop_spaces (list_ascii_of_string s))))).

(** The depth of parentheses after [cs], starting at depth [d], if no [)]
    comes without its [(]. *)
Fixpoint paren_depth (d : nat) (cs : list ascii) : option nat :=
  match cs with
  | [] => Some d
  | c :: rest =>
      if Ascii.eqb c "(" then paren_depth (S d) rest
      else if Ascii.eqb c ")" then
        match d with O => None | S d' => paren_depth d' rest end
      else paren_depth d rest
  end.

Definition parentheses_balance (s : string) : bool :=
  match paren_depth 0 (list_ascii_of_string s) with
  | Some O => true
  | _ => false
  end.

(** The last character that is not a space. *)
Fixpoint last_visible (cs : list ascii) : option ascii :=
  match cs with
  | [] => None
  | c :: rest =>
      match last_visible rest with
      | Some x => Some x
      | None => if Ascii.eqb c " " then None else Some c
      end
  end.

Definition is_operator_char (c : ascii) : bool :=
  Ascii.eqb c "+" || Ascii.eqb c "-" || Ascii.eqb c "*" || Ascii.eqb c "/".

Definition ends_with_operator (s : string) : bool :=
  match last_visible (list_ascii_of_string s) with
  | Some c => is_operator_char c
  | None => false
  end.

(** ** For the proofs about the parsers *)

(** The tokens that can follow a complete reference expression. *)
Definition follower (t : token) : bool :=
  match t with
  | RPAR | PLUS | MINUS | STAR | SLASH => true
  | _ => false
  end.

Definition may_follow (ts : list token) : bool :=
  match ts with
  | [] => true
  | t :: _ => follower t
  end.

(** [u] leaves the nesting depth as it found it. *)
Definition flat (u : list token) : Prop := forall d, nesting d u = Some d.

Definition ends_operand (u : list token) : bool :=
  match rev u with
  | (NUMBER _ | RPAR | ELLIPSIS) :: _ => true
  | _ => false
  end.

Definition is_paren (t : token) : bool :=
  match t with LPAR | RPAR => true | _ => false end.

(** The tokens of one expression, and of what may follow an operand. *)
Definition phrase (u : list token) : Prop := flat u /\ ends_operand u = true.
Definition tail_phrase (u : list token) : Prop :=
  flat u /\ (u = [] \/ ends_operand u = true).

(** A parser that consumes a phrase whenever it succeeds. *)
Definition takes_phrase {T : Type} (p : parser T) : Prop :=
  forall ts e r, p ts = Some (e, r) -> exists u, ts = (u ++ r)%list /\ phrase u.

(** A parser that leaves less than it was given, and two parsers that
    agree on inputs shorter than [k]. *)
Definition shrinks {T : Type} (p : parser T) : Prop :=
  forall ts e r, p ts = Some (e, r) -> (List.length r < List.length ts)%nat.

Definition agree_below {T : Type} (k : nat) (p q : parser T) : Prop :=
  forall ts, (List.length ts < k)%nat -> p ts = q ts.

(** The last token is a binary operator, as a decomposition. *)
Definition last_is_operator (l : list token) : Prop :=
  exists l' t, l = (l' ++ [t])%list /\ is_operator t = true.

(** An [int] or a [float]. *)
Definition is_real (v : value) : bool :=
  match v with VInt _ | VFloat _ => true | _ => false end.

(** ** Inputs of the examples *)

(** [n] nines and a point. *)
Fixpoint nines (n : nat) : string :=
  match n with
  | O => "."%string
  | S n' => String "9" (nines n')
  end.

(** A float literal beyond the range of binary64. *)
Definition huge : string := nines 310.

(** [n] ones: an integer literal of [n] digits. *)
Fixpoint ones (n : nat) : string :=
  match n with
  | O => EmptyString
  | S n' => String "1" (ones n')
  end.

(** The difference of two literals that are both read as [inf]. *)
Definition inf_minus_inf : string := (huge ++ "-" ++ huge)%string.

(** ** For the further properties of the handler *)

(** The whitelisted characters that are not digits. *)
Definition symbols : list ascii := list_ascii_of_string "+-*/.() ".

(** A string of spaces, the empty one included. *)
Definition blank (s : string) : bool :=
  forallb (Ascii.eqb " ") (list_ascii_of_string s).

(** The integer a reference tree denotes in exact integer arithmetic, when
    it has no [/] and no literal with a point. *)
Fixpoint int_value (a : arith) : option Z :=
  match a with
  | Lit lit =>
      match fraction lit with
      | None => Some (digits_value (whole lit))
      | Some _ => None
      end
  | Neg b => option_map Z.opp (int_value b)
  | Bin l op r =>
      match int_value l, int_value r with
      | Some x, Some y =>
          match op with
          | Plus => Some (x + y)
          | Minus => Some (x - y)
          | Times => Some (x * y)
          | Divide => None
          end
      | _, _ => None
      end
  end.

(** The tree holds a call. *)
Fixpoint has_call (e : expr) : bool :=
  match e with
  | Constant _ | EmptyTuple => false
  | UnaryOp _ operand => has_call operand
  | BinOp l _ r => has_call l || has_call r
  | Call0 _ | Call1 _ _ _ => true
  end.

(** The specification's words for an item of a list, or a key of an
    object, given as the expression: a whitelisted character is a string of
    one character that is a digit or one of [symbols]; an item that cannot
    be hashed is a list or an object. *)
Definition whitelisted_item (j : json) : Prop :=
  exists c, j = JStr (String c "") /\ (is_digit c = true \/ In c symbols).

Definition unhashable (j : json) : Prop :=
  (exists items, j = JArr items) \/ (exists fields, j = JObj fields).

(** An interpreter that differs in what it does with source text outside
    the whitelisted alphabet. *)
Definition with_other_source (py : interpreter)
  (other : string -> outcome value) : interpreter :=
  Interpreter (other_arith py) (star_error_text py) other (resource_error py).

(** The tokens one more [)] or space at the end of a line adds. *)
Definition trailer (c : ascii) : list token :=
  if Ascii.eqb c ")" then [RPAR] else [].

(** A parser that does the same when a [)] is put after its input, and
    leaves the [)]. *)
Definition extends_rpar {T : Type} (p : parser T) : Prop :=
  forall ts e r,
    p ts = Some (e, r) -> p (ts ++ [RPAR])%list = Some (e, (r ++ [RPAR])%list).

(** * The reference grammar is part of Python's *)

Section ChainRefines.

Context {S T : Type}.
Variable conv : S -> T.
Variable ok : S -> bool.
Variable ops_s : token -> option (S -> S -> S).
Variable ops_t : token -> option (T -> T -> T).
Variable operand_s : parser S.
Variable operand_t : parser T.

Hypothesis ops_agree : forall t mk,
  ops_s t = Some mk ->
  follower t = true /\
  (forall l r, ok (mk l r) = true -> ok l = true /\ ok r = true) /\
  exists mk', ops_t t = Some mk' /\ forall l r, conv (mk l r) = mk' (conv l) (conv r).

Hypothesis ops_stop : forall t,
  follower t = true -> ops_s t = None -> ops_t t = None.

Hypothesis operand_refines : forall ts a r,
  operand_s ts = Some (a, r) -> may_follow r = true -> ok a = true ->
  operand_t ts = Some (conv a, r).

Lemma chain_rest_follow n acc ts a r :
  chain_rest ops_s operand_s n acc ts = Some (a, r) ->
  may_follow r = true -> may_follow ts = true.
Proof.
  destruct ts as [|t ts1]; [reflexivity|].
  destruct n; simpl; destruct (ops_s t) as [mk|] eqn:E;
    try (intros _ _; apply (ops_agree _ _ E));
    intros [= _ <-]; trivial.
Qed.

Lemma chain_rest_refines n : forall acc ts a r,
  chain_rest ops_s operand_s n acc ts = Some (a, r) ->
  may_follow r = true -> ok a = true ->
  ok acc = true /\
  chain_rest ops_t operand_t n (conv acc) ts = Some (conv a, r).
Proof.
  induction n as [|n IH]; intros acc ts a r Hs Hr Ha.
  - destruct ts as [|t ts1]; simpl in *.
    + injection Hs as <- <-. auto.
    + destruct (ops_s t) eqn:E; [discriminate|].
      injection Hs as <- <-. rewrite (ops_stop t Hr E). auto.
  - destruct ts as [|t ts1]; simpl in *.
    + injection Hs as <- <-. auto.
    + destruct (ops_s t) as [mk|] eqn:E.
      * destruct (operand_s ts1) as [[x ts2]|] eqn:Ex; [|discriminate].
        destruct (ops_agree _ _ E) as (_ & Hok & mk' & E' & Hmk).
        destruct (IH _ _ _ _ Hs Hr Ha) as [Hacc Ht].
        destruct (Hok _ _ Hacc) as [Hl Hx].
        rewrite E'.
        rewrite (operand_refines _ _ _ Ex (chain_rest_follow _ _ _ _ _ Hs Hr) Hx).
        rewrite <- Hmk. auto.
      * injection Hs as <- <-. rewrite (ops_stop t Hr E). auto.
Qed.

Lemma chain_refines n ts a r :
  chain ops_s operand_s n ts = Some (a, r) ->
  may_follow r = true -> ok a = true ->
  chain ops_t operand_t n ts = Some (conv a, r).
Proof.
  unfold chain. intros Hs Hr Ha.
  destruct (operand_s ts) as [[l ts1]|] eqn:El; [|discriminate].
  destruct (chain_rest_refines _ _ _ _ _ Hs Hr Ha) as [Hl Ht].
  rewrite (operand_refines _ _ _ El (chain_rest_follow _ _ _ _ _ Hs Hr) Hl).
  exact Ht.
Qed.

End ChainRefines.

Lemma multiplicative_term_op t mk :
  multiplicative t = Some mk ->
  follower t = true /\
  (forall l r, plain_literals (mk l r) = true ->
               plain_literals l = true /\ plain_literals r = true) /\
  exists mk', term_op t = Some mk' /\
              forall l r, to_expr (mk l r) = mk' (to_expr l) (to_expr r).
Proof.
  destruct t; try discriminate; intros [= <-]; (split; [reflexivity|]);
    (split; [intros l r H; apply andb_prop in H; exact H|]);
    eexists; split; reflexivity.
Qed.

Lemma additive_sum_op t mk :
  additive t = Some mk ->
  follower t = true /\
  (forall l r, plain_literals (mk l r) = true ->
               plain_literals l = true /\ plain_literals r = true) /\
  exists mk', sum_op t = Some mk' /\
              forall l r, to_expr (mk l r) = mk' (to_expr l) (to_expr r).
Proof.
  destruct t; try discriminate; intros [= <-]; (split; [reflexivity|]);
    (split; [intros l r H; apply andb_prop in H; exact H|]);
    eexists; split; reflexivity.
Qed.

Lemma multiplicative_stop t :
  follower t = true -> multiplicative t = None -> term_op t = None.
Proof. destruct t; try discriminate; reflexivity. Qed.

Lemma additive_stop t :
  follower t = true -> additive t = None -> sum_op t = None.
Proof. destruct t; try discriminate; reflexivity. Qed.

Lemma call_rest_none sum n f ts :
  may_follow ts = true -> call_rest sum n f ts = Some (f, ts).
Proof.
  destruct ts as [|t ts1]; destruct n; try reflexivity;
    destruct t; try discriminate; reflexivity.
Qed.

Lemma spec_factor_not_rpar n ts : spec_factor n (RPAR :: ts) = None.
Proof. destruct n; reflexivity. Qed.

Lemma spec_factor_refines n : forall ts a r,
  spec_factor n ts = Some (a, r) ->
  may_follow r = true -> plain_literals a = true ->
  py_factor n ts = Some (to_expr a, r).
Proof.
  induction n as [|n IH]; intros ts a r Hs Hr Ha; [discriminate|].
  assert (Hsum : forall ts a r,
    chain additive (chain multiplicative (spec_factor n) n) n ts = Some (a, r) ->
    may_follow r = true -> plain_literals a = true ->
    chain sum_op (chain term_op (py_factor n) n) n ts = Some (to_expr a, r)).
  { apply chain_refines with (ok := plain_literals);
      [exact additive_sum_op | exact additive_stop |].
    apply chain_refines with (ok := plain_literals);
      [exact multiplicative_term_op | exact multiplicative_stop | exact IH]. }
  simpl in Hs |- *.
  destruct ts as [|t ts1]; [discriminate|].
  destruct t; try discriminate.
  - (* NUMBER *)
    simpl in Hs. injection Hs as <- <-. simpl in Ha.
    unfold py_power, py_atom, py_number. apply negb_true_iff in Ha. rewrite Ha.
    rewrite call_rest_none by assumption.
    destruct ts1 as [|t r']; [reflexivity|]. destruct t; try discriminate; reflexivity.
  - (* MINUS *)
    destruct (spec_factor n ts1) as [[a' r']|] eqn:E; [|discriminate].
    injection Hs as <- <-. simpl in Ha.
    rewrite (IH _ _ _ E Hr Ha). reflexivity.
  - (* LPAR *)
    simpl in Hs.
    destruct (chain additive (chain multiplicative (spec_factor n) n) n ts1)
      as [[a' r']|] eqn:E; [|discriminate].
    destruct r' as [|t r'']; [discriminate|].
    destruct t; try discriminate. injection Hs as <- <-.
    assert (Hne : forall x, ts1 <> RPAR :: x).
    { intros x ->. unfold chain in E. rewrite spec_factor_not_rpar in E.
      discriminate. }
    pose proof (Hsum _ _ _ E eq_refl Ha) as Hp.
    unfold py_power, py_atom.
    replace (match ts1 with
             | RPAR :: ts0 => Some (EmptyTuple, ts0)
             | _ => closing (chain sum_op (chain term_op (py_factor n) n) n ts1)
             end)
      with (closing (chain sum_op (chain term_op (py_factor n) n) n ts1))
      by (destruct ts1 as [|[] ?]; try reflexivity; exfalso; eapply Hne; reflexivity).
    rewrite Hp. simpl. rewrite call_rest_none by assumption.
    destruct r'' as [|t r']; [reflexivity|].
    destruct t; try discriminate; reflexivity.
Qed.

Theorem spec_parse_refines ts a :
  spec_parse ts = Some a -> plain_literals a = true ->
  py_parse ts = Some (to_expr a).
Proof.
  unfold spec_parse, py_parse, spec_sum, py_sum, spec_term, py_term.
  intros Hs Ha.
  destruct (chain additive _ _ ts) as [[a' r]|] eqn:E; [|discriminate].
  destruct r; [|discriminate]. injection Hs as ->.
  assert (Hp : chain sum_op
                 (chain term_op (py_factor (S (List.length ts))) (S (List.length ts)))
                 (S (List.length ts)) ts = Some (to_expr a, [])).
  { assert (Hr : may_follow (@nil token) = true) by reflexivity.
    revert E Hr Ha. generalize (@nil token). revert ts a.
    intros ts. generalize (S (List.length ts)). intros n a r. revert ts a r.
    apply chain_refines with (ok := plain_literals);
      [exact additive_sum_op | exact additive_stop |].
    apply chain_refines with (ok := plain_literals);
      [exact multiplicative_term_op | exact multiplicative_stop |].
    apply spec_factor_refines. }
  rewrite Hp. reflexivity.
Qed.

(** ** What Python's grammar accepts is balanced and ends in an operand *)

Lemma nesting_app u : forall d v,
  nesting d (u ++ v) =
  match nesting d u with Some d' => nesting d' v | None => None end.
Proof.
  induction u as [|t u IH]; intros d v; [reflexivity|].
  destruct t; simpl; try apply IH. destruct d; [reflexivity|apply IH].
Qed.

Lemma flat_app u v : flat u -> flat v -> flat (u ++ v).
Proof. intros Hu Hv d. rewrite nesting_app, Hu. apply Hv. Qed.

Lemma flat_cons t u : is_paren t = false -> flat u -> flat (t :: u).
Proof. intros Ht Hu d. destruct t; try discriminate; simpl; apply Hu. Qed.

Lemma flat_group u : flat u -> flat (LPAR :: u ++ [RPAR]).
Proof. intros Hu d. simpl. rewrite nesting_app, Hu. reflexivity. Qed.

Lemma ends_operand_app u v :
  ends_operand v = true -> ends_operand (u ++ v) = true.
Proof.
  unfold ends_operand. rewrite rev_app_distr.
  destruct (rev v) as [|t w]; [discriminate|]. simpl. trivial.
Qed.

Lemma ends_operand_group u : ends_operand (LPAR :: u ++ [RPAR]) = true.
Proof.
  change (LPAR :: u ++ [RPAR])%list with ((LPAR :: u) ++ [RPAR])%list.
  apply ends_operand_app. reflexivity.
Qed.

Lemma phrase_tail u : phrase u -> tail_phrase u.
Proof. intros [H1 H2]. split; auto. Qed.

Lemma tail_phrase_nil : tail_phrase [].
Proof. split; [intros d; reflexivity|auto]. Qed.

Lemma phrase_app u v : phrase u -> tail_phrase v -> phrase (u ++ v).
Proof.
  intros [Hu Eu] [Hv [->|Ev]].
  - rewrite app_nil_r. split; assumption.
  - split; [apply flat_app; assumption|apply ends_operand_app; assumption].
Qed.

Lemma tail_phrase_app u v : tail_phrase u -> tail_phrase v -> tail_phrase (u ++ v).
Proof.
  intros [Hu Eu] [Hv Ev]. split; [apply flat_app; assumption|].
  destruct Ev as [->|Ev].
  - rewrite app_nil_r. exact Eu.
  - right. apply ends_operand_app. exact Ev.
Qed.

Lemma phrase_cons t u : is_paren t = false -> phrase u -> phrase (t :: u).
Proof.
  intros Ht [Hu Eu]. split; [apply flat_cons; assumption|].
  change (t :: u) with ([t] ++ u)%list. apply ends_operand_app. exact Eu.
Qed.

Lemma phrase_group u : flat u -> phrase (LPAR :: u ++ [RPAR]).
Proof. intros Hu. split; [apply flat_group; exact Hu|apply ends_operand_group]. Qed.

Lemma closing_inv p e r :
  closing p = Some (e, r) -> p = Some (e, RPAR :: r).
Proof.
  destruct p as [[e' [|t r']]|]; try discriminate.
  destruct t; try discriminate. intros [= -> ->]. reflexivity.
Qed.

Section ChainShape.

Context {T : Type}.
Variable ops : token -> option (T -> T -> T).
Variable operand : parser T.

Hypothesis ops_plain : forall t mk, ops t = Some mk -> is_paren t = false.
Hypothesis operand_phrase : takes_phrase operand.

Lemma chain_rest_shape n : forall acc ts e r,
  chain_rest ops operand n acc ts = Some (e, r) ->
  exists u, ts = (u ++ r)%list /\ tail_phrase u.
Proof.
  induction n as [|n IH]; intros acc ts e r H;
    destruct ts as [|t ts1]; simpl in H.
  - injection H as <- <-. exists []. split; [reflexivity|apply tail_phrase_nil].
  - destruct (ops t); [discriminate|]. injection H as <- <-.
    exists []. split; [reflexivity|apply tail_phrase_nil].
  - injection H as <- <-. exists []. split; [reflexivity|apply tail_phrase_nil].
  - destruct (ops t) as [mk|] eqn:E.
    + destruct (operand ts1) as [[x ts2]|] eqn:Ex; [|discriminate].
      destruct (operand_phrase _ _ _ Ex) as (u1 & -> & Hu1).
      destruct (IH _ _ _ _ H) as (u2 & -> & Hu2).
      exists ((t :: u1) ++ u2)%list. split.
      * simpl. rewrite app_assoc. reflexivity.
      * apply tail_phrase_app; [|exact Hu2].
        apply phrase_tail, phrase_cons; [exact (ops_plain _ _ E)|exact Hu1].
    + injection H as <- <-. exists []. split; [reflexivity|apply tail_phrase_nil].
Qed.

Lemma chain_shape n : takes_phrase (chain ops operand n).
Proof.
  intros ts e r H. unfold chain in H.
  destruct (operand ts) as [[l ts1]|] eqn:El; [|discriminate].
  destruct (operand_phrase _ _ _ El) as (u1 & -> & Hu1).
  destruct (chain_rest_shape _ _ _ _ _ H) as (u2 & -> & Hu2).
  exists (u1 ++ u2)%list. split; [rewrite app_assoc; reflexivity|].
  apply phrase_app; assumption.
Qed.

End ChainShape.

Lemma sum_op_plain t mk : sum_op t = Some mk -> is_paren t = false.
Proof. destruct t; try discriminate; reflexivity. Qed.

Lemma term_op_plain t mk : term_op t = Some mk -> is_paren t = false.
Proof. destruct t; try discriminate; reflexivity. Qed.

Section PrimaryShape.

Variable sum : parser expr.
Hypothesis sum_phrase : takes_phrase sum.

Lemma closing_shape ts e r :
  closing (sum ts) = Some (e, r) ->
  exists u, ts = (u ++ RPAR :: r)%list /\ phrase u.
Proof. intros H. apply closing_inv in H. exact (sum_phrase _ _ _ H). Qed.

Lemma py_atom_shape : takes_phrase (py_atom sum).
Proof.
  intros ts e r H. unfold py_atom in H.
  destruct ts as [|t ts1]; [discriminate|].
  destruct t; try discriminate.
  - destruct (py_number lit); [|discriminate]. injection H as <- <-.
    exists [NUMBER lit]. split; [reflexivity|]. split; [intros d|]; reflexivity.
  - assert (Hg : forall ts1, closing (sum ts1) = Some (e, r) ->
        exists u, LPAR :: ts1 = (u ++ r)%list /\ phrase u).
    { intros ts H1. destruct (closing_shape _ _ _ H1) as (u & -> & Hu & _).
      exists (LPAR :: u ++ [RPAR])%list. split.
      - simpl. rewrite <- app_assoc. reflexivity.
      - apply phrase_group. exact Hu. }
    destruct ts1 as [|t ts2]; [apply Hg; exact H|].
    destruct t; try (apply Hg; exact H).
    injection H as <- <-. exists [LPAR; RPAR].
    split; [reflexivity|]. split; [intros d|]; reflexivity.
  - injection H as <- <-.
    exists [ELLIPSIS]. split; [reflexivity|]. split; [intros d|]; reflexivity.
Qed.

Lemma call_rest_shape n : forall f ts e r,
  call_rest sum n f ts = Some (e, r) ->
  exists u, ts = (u ++ r)%list /\ tail_phrase u.
Proof.
  assert (Hnil : forall (f e : expr) (ts r : list token),
    Some (f, ts) = Some (e, r) -> exists u, ts = (u ++ r)%list /\ tail_phrase u).
  { intros f e ts r [= <- <-]. exists []. split; [reflexivity|apply tail_phrase_nil]. }
  induction n as [|n IH]; intros f ts e r H;
    destruct ts as [|t ts0]; simpl in H; try (eapply Hnil; exact H);
    destruct t; try (eapply Hnil; exact H); try discriminate.
  assert (Harg : forall pre ts1 form,
    flat pre ->
    match closing (sum ts1) with
    | Some (a, ts2) => call_rest sum n (Call1 f form a) ts2
    | None => None
    end = Some (e, r) ->
    exists u, LPAR :: (pre ++ ts1) = (u ++ r)%list /\ tail_phrase u).
  { intros pre ts1 form Hpre H1.
    destruct (closing (sum ts1)) as [[a ts2]|] eqn:Ec; [|discriminate].
    destruct (closing_shape _ _ _ Ec) as (u1 & -> & Hu1 & _).
    destruct (IH _ _ _ _ H1) as (u2 & -> & Hu2).
    exists ((LPAR :: (pre ++ u1) ++ [RPAR]) ++ u2)%list. split.
    - simpl. rewrite <- !app_assoc. reflexivity.
    - apply tail_phrase_app; [|exact Hu2].
      apply phrase_tail, phrase_group, flat_app; [exact Hpre|exact Hu1]. }
  destruct ts0 as [|t ts1]; [apply (Harg [] [] Positional); [intros d; reflexivity|exact H]|].
  destruct t;
    try (apply (Harg [] _ Positional); [intros d; reflexivity|exact H]).
  - apply (Harg [STAR] ts1 Starred); [intros d; reflexivity|exact H].
  - apply (Harg [DOUBLESTAR] ts1 DoubleStarred); [intros d; reflexivity|exact H].
  - destruct (IH _ _ _ _ H) as (u2 & -> & Hu2).
    exists ([LPAR; RPAR] ++ u2)%list. split; [reflexivity|].
    apply tail_phrase_app; [|exact Hu2].
    split; [intros d; reflexivity|right; reflexivity].
Qed.

End PrimaryShape.

Lemma py_power_shape sum factor n :
  takes_phrase sum -> takes_phrase factor -> takes_phrase (py_power sum factor n).
Proof.
  intros Hsum Hfactor ts e r H. unfold py_power in H.
  destruct (py_atom sum ts) as [[a ts1]|] eqn:Ea; [|discriminate].
  destruct (py_atom_shape sum Hsum _ _ _ Ea) as (u1 & -> & Hu1).
  destruct (call_rest sum n a ts1) as [[p ts2]|] eqn:Ec; [|discriminate].
  destruct (call_rest_shape sum Hsum _ _ _ _ _ Ec) as (u2 & -> & Hu2).
  assert (Hstop : Some (p, ts2) = Some (e, r) ->
    exists u, ((u1 ++ u2 ++ ts2) = u ++ r)%list /\ phrase u).
  { intros [= <- <-]. exists (u1 ++ u2)%list.
    split; [rewrite app_assoc; reflexivity|apply phrase_app; assumption]. }
  destruct ts2 as [|t ts3]; [exact (Hstop H)|].
  destruct t; try exact (Hstop H).
  destruct (factor ts3) as [[x ts4]|] eqn:Ex; [|discriminate].
  injection H as <- <-.
  destruct (Hfactor _ _ _ Ex) as (u3 & -> & Hu3).
  exists ((u1 ++ u2) ++ DOUBLESTAR :: u3)%list. split.
  - rewrite <- !app_assoc. reflexivity.
  - apply phrase_app; [apply phrase_app; assumption|].
    apply phrase_tail, phrase_cons; [reflexivity|exact Hu3].
Qed.

Lemma py_factor_shape n : takes_phrase (py_factor n).
Proof.
  induction n as [|n IH]; intros ts e r H; [discriminate|].
  simpl in H.
  assert (Hsum : takes_phrase (chain sum_op (chain term_op (py_factor n) n) n)).
  { apply chain_shape; [exact sum_op_plain|].
    apply chain_shape; [exact term_op_plain|exact IH]. }
  assert (Hpow := py_power_shape _ _ n Hsum IH).
  assert (Hun : forall t ts1,
    is_paren t = false ->
    forall op, match py_factor n ts1 with
    | Some (x, ts2) => Some (UnaryOp op x, ts2)
    | None => None
    end = Some (e, r) ->
    exists u, t :: ts1 = (u ++ r)%list /\ phrase u).
  { intros t ts1 Ht op H1.
    destruct (py_factor n ts1) as [[x ts2]|] eqn:Ex; [|discriminate].
    injection H1 as <- <-. destruct (IH _ _ _ Ex) as (u & -> & Hu).
    exists (t :: u). split; [reflexivity|apply phrase_cons; assumption]. }
  destruct ts as [|t ts1]; [exact (Hpow _ _ _ H)|].
  destruct t; try exact (Hpow _ _ _ H).
  - exact (Hun PLUS ts1 eq_refl UAdd H).
  - exact (Hun MINUS ts1 eq_refl USub H).
Qed.

(** Whatever Python's grammar accepts has balanced parentheses and does not
    end in an operator. *)
Theorem py_parse_shape ts e :
  py_parse ts = Some e -> balanced ts = true /\ trailing_operator ts = false.
Proof.
  unfold py_parse, py_sum, py_term. intros H.
  destruct (chain sum_op _ _ ts) as [[e' r]|] eqn:E; [|discriminate].
  destruct r; [|discriminate].
  assert (Hs : takes_phrase
    (chain sum_op (chain term_op (py_factor (S (List.length ts))) (S (List.length ts)))
       (S (List.length ts)))).
  { apply chain_shape; [exact sum_op_plain|].
    apply chain_shape; [exact term_op_plain|apply py_factor_shape]. }
  destruct (Hs _ _ _ E) as (u & Hu & Hflat & Hend).
  rewrite app_nil_r in Hu. subst u. split.
  - unfold balanced. rewrite Hflat. reflexivity.
  - unfold trailing_operator. unfold ends_operand in Hend.
    destruct (rev ts) as [|t w]; [reflexivity|].
    destruct t; try discriminate; reflexivity.
Qed.

(** ** The fuel of the parsers is enough

    The bound [n] of the parsers is never the reason for a failure: from
    one more than the number of tokens on, a larger bound changes
    nothing. *)

Lemma phrase_nonempty u : phrase u -> (0 < List.length u)%nat.
Proof. intros [_ H]. destruct u; [discriminate|simpl; lia]. Qed.

Lemma takes_phrase_shrinks {T : Type} (p : parser T) :
  takes_phrase p -> shrinks p.
Proof.
  intros H ts e r Hp. destruct (H _ _ _ Hp) as (u & -> & Hu).
  apply phrase_nonempty in Hu. rewrite length_app. lia.
Qed.

Section ChainFuel.

Context {T : Type}.
Variable ops : token -> option (T -> T -> T).
Variable p q : parser T.
Variable k : nat.

Hypothesis p_q : agree_below k p q.
Hypothesis p_shrinks : shrinks p.

Lemma chain_rest_fuel n1 : forall n2 acc ts,
  (List.length ts <= k)%nat ->
  (List.length ts <= n1)%nat -> (List.length ts <= n2)%nat ->
  chain_rest ops p n1 acc ts = chain_rest ops q n2 acc ts.
Proof.
  induction n1 as [|n1 IH]; intros n2 acc ts Hk H1 H2.
  - destruct ts; [|simpl in H1; lia]. destruct n2; reflexivity.
  - destruct ts as [|t ts1]; [destruct n2; reflexivity|].
    simpl in Hk, H1, H2. destruct n2 as [|n2]; [lia|]. simpl.
    destruct (ops t) as [mk|]; [|reflexivity].
    rewrite <- (p_q ts1) by lia.
    destruct (p ts1) as [[x ts2]|] eqn:E; [|reflexivity].
    apply p_shrinks in E. apply IH; lia.
Qed.

Lemma chain_fuel n1 n2 :
  (k <= S n1)%nat -> (k <= S n2)%nat ->
  agree_below k (chain ops p n1) (chain ops q n2).
Proof.
  intros H1 H2 ts Hk. unfold chain. rewrite <- (p_q ts Hk).
  destruct (p ts) as [[l ts1]|] eqn:E; [|reflexivity].
  apply p_shrinks in E. apply chain_rest_fuel; lia.
Qed.

Lemma chain_rest_length n : forall acc ts e r,
  chain_rest ops p n acc ts = Some (e, r) ->
  (List.length r <= List.length ts)%nat.
Proof.
  induction n as [|n IH]; intros acc ts e r H;
    destruct ts as [|t ts1]; simpl in H;
    try (injection H as <- <-; simpl; lia);
    destruct (ops t); try discriminate;
    try (injection H as <- <-; simpl; lia).
  destruct (p ts1) as [[x ts2]|] eqn:E; [|discriminate].
  apply p_shrinks in E. apply IH in H. simpl. lia.
Qed.

Lemma chain_shrinks n : shrinks (chain ops p n).
Proof.
  intros ts e r H. unfold chain in H.
  destruct (p ts) as [[l ts1]|] eqn:E; [|discriminate].
  apply p_shrinks in E. apply chain_rest_length in H. lia.
Qed.

End ChainFuel.

Section PowerFuel.

Variable sum1 sum2 factor1 factor2 : parser expr.
Variable k : nat.

Hypothesis sums : agree_below k sum1 sum2.
Hypothesis factors : agree_below k factor1 factor2.
Hypothesis sum1_phrase : takes_phrase sum1.

Lemma py_atom_fuel ts :
  (List.length ts <= k)%nat -> py_atom sum1 ts = py_atom sum2 ts.
Proof.
  intros Hk. destruct ts as [|t ts1]; [reflexivity|].
  destruct t; try reflexivity. simpl in Hk.
  unfold py_atom. rewrite (sums ts1) by lia. reflexivity.
Qed.

Lemma call_rest_fuel n1 : forall n2 f ts,
  (List.length ts <= k)%nat ->
  (List.length ts <= n1)%nat -> (List.length ts <= n2)%nat ->
  call_rest sum1 n1 f ts = call_rest sum2 n2 f ts.
Proof.
  induction n1 as [|n1 IH]; intros n2 f ts Hk H1 H2.
  - destruct ts; [|simpl in H1; lia]. destruct n2; reflexivity.
  - destruct ts as [|t ts0]; [destruct n2; reflexivity|].
    simpl in Hk, H1, H2. destruct n2 as [|n2]; [lia|].
    destruct t; try reflexivity. simpl.
    assert (Harg : forall ts1 form,
      (List.length ts1 <= List.length ts0)%nat ->
      match closing (sum1 ts1) with
      | Some (a, ts2) => call_rest sum1 n1 (Call1 f form a) ts2
      | None => None
      end =
      match closing (sum2 ts1) with
      | Some (a, ts2) => call_rest sum2 n2 (Call1 f form a) ts2
      | None => None
      end).
    { intros ts1 form Hl. rewrite <- (sums ts1) by lia.
      destruct (closing (sum1 ts1)) as [[a ts2]|] eqn:E; [|reflexivity].
      destruct (closing_shape sum1 sum1_phrase _ _ _ E) as (u & -> & _).
      rewrite length_app in Hl. simpl in Hl. apply IH; lia. }
    destruct ts0 as [|t ts1]; [apply (Harg [] Positional); simpl; lia|].
    simpl in Hk, H1, H2.
    destruct t; try (apply (Harg _ Positional); simpl; lia).
    + apply Harg. simpl. lia.
    + apply Harg. simpl. lia.
    + apply IH; lia.
Qed.

Lemma py_power_fuel n1 n2 ts :
  (List.length ts <= k)%nat ->
  (List.length ts <= S n1)%nat -> (List.length ts <= S n2)%nat ->
  py_power sum1 factor1 n1 ts = py_power sum2 factor2 n2 ts.
Proof.
  intros Hk H1 H2. unfold py_power. rewrite <- (py_atom_fuel ts Hk).
  destruct (py_atom sum1 ts) as [[a ts1]|] eqn:Ea; [|reflexivity].
  destruct (py_atom_shape sum1 sum1_phrase _ _ _ Ea) as (u1 & -> & Hu1).
  apply phrase_nonempty in Hu1. rewrite length_app in Hk, H1, H2.
  rewrite <- (call_rest_fuel n1 n2) by lia.
  destruct (call_rest sum1 n1 a ts1) as [[f ts2]|] eqn:Ec; [|reflexivity].
  destruct (call_rest_shape sum1 sum1_phrase _ _ _ _ _ Ec) as (u2 & -> & _).
  destruct ts2 as [|t ts3]; [reflexivity|].
  destruct t; try reflexivity.
  rewrite length_app in Hk. simpl in Hk.
  rewrite (factors ts3) by lia. reflexivity.
Qed.

End PowerFuel.

Lemma py_sum_phrase n :
  takes_phrase (chain sum_op (chain term_op (py_factor n) n) n).
Proof.
  apply chain_shape; [exact sum_op_plain|].
  apply chain_shape; [exact term_op_plain|apply py_factor_shape].
Qed.

Lemma py_factor_fuel n : agree_below n (py_factor n) (py_factor (S n)).
Proof.
  induction n as [|n IH]; intros ts Hn; [lia|].
  assert (Hterm : agree_below n (chain term_op (py_factor n) n)
                    (chain term_op (py_factor (S n)) (S n))).
  { apply chain_fuel; [exact IH| |lia|lia].
    apply takes_phrase_shrinks, py_factor_shape. }
  assert (Hsum : agree_below n
                   (chain sum_op (chain term_op (py_factor n) n) n)
                   (chain sum_op (chain term_op (py_factor (S n)) (S n)) (S n))).
  { apply chain_fuel; [exact Hterm| |lia|lia].
    apply chain_shrinks, takes_phrase_shrinks, py_factor_shape. }
  change (py_factor (S (S n)) ts) with
    (match ts with
     | PLUS :: ts1 =>
         match py_factor (S n) ts1 with
         | Some (e, ts2) => Some (UnaryOp UAdd e, ts2)
         | None => None
         end
     | MINUS :: ts1 =>
         match py_factor (S n) ts1 with
         | Some (e, ts2) => Some (UnaryOp USub e, ts2)
         | None => None
         end
     | _ => py_power (chain sum_op (chain term_op (py_factor (S n)) (S n)) (S n))
              (py_factor (S n)) (S n) ts
     end).
  change (py_factor (S n) ts) with
    (match ts with
     | PLUS :: ts1 =>
         match py_factor n ts1 with
         | Some (e, ts2) => Some (UnaryOp UAdd e, ts2)
         | None => None
         end
     | MINUS :: ts1 =>
         match py_factor n ts1 with
         | Some (e, ts2) => Some (UnaryOp USub e, ts2)
         | None => None
         end
     | _ => py_power (chain sum_op (chain term_op (py_factor n) n) n)
              (py_factor n) n ts
     end).
  assert (Hpow :
    py_power (chain sum_op (chain term_op (py_factor n) n) n) (py_factor n) n ts
    = py_power (chain sum_op (chain term_op (py_factor (S n)) (S n)) (S n))
        (py_factor (S n)) (S n) ts).
  { apply (py_power_fuel _ _ _ _ n Hsum IH (py_sum_phrase n)); lia. }
  destruct ts as [|t ts1]; [exact Hpow|].
  simpl in Hn.
  destruct t; try exact Hpow; rewrite (IH ts1) by lia; reflexivity.
Qed.

Lemma py_sum_fuel_step n : agree_below n (py_sum n) (py_sum (S n)).
Proof.
  unfold py_sum, py_term.
  apply chain_fuel; [| |lia|lia].
  - apply chain_fuel; [apply py_factor_fuel| |lia|lia].
    apply takes_phrase_shrinks, py_factor_shape.
  - apply chain_shrinks, takes_phrase_shrinks, py_factor_shape.
Qed.

(** Any bound above the number of tokens gives the result [py_parse]
    computes. *)
Theorem py_sum_fuel ts n :
  (List.length ts < n)%nat -> py_sum n ts = py_sum (S (List.length ts)) ts.
Proof.
  intros H. induction n as [|n IH]; [lia|].
  destruct (Nat.eq_dec n (List.length ts)) as [->|Hne]; [reflexivity|].
  rewrite <- (py_sum_fuel_step n ts) by lia. apply IH. lia.
Qed.

Lemma spec_factor_shrinks n : shrinks (spec_factor n).
Proof.
  induction n as [|n IH]; intros ts e r H; [discriminate|].
  simpl in H. destruct ts as [|t ts1]; [discriminate|].
  destruct t; try discriminate; simpl in H.
  - injection H as <- <-. simpl. lia.
  - destruct (spec_factor n ts1) as [[a ts2]|] eqn:E; [|discriminate].
    injection H as <- <-. apply IH in E. simpl. lia.
  - destruct (chain additive (chain multiplicative (spec_factor n) n) n ts1)
      as [[a ts2]|] eqn:E; [|discriminate].
    destruct ts2 as [|t ts3]; [discriminate|].
    destruct t; try discriminate. injection H as <- <-.
    apply chain_shrinks in E; [simpl in *; lia|].
    apply chain_shrinks, IH.
Qed.

Lemma spec_factor_fuel n : agree_below n (spec_factor n) (spec_factor (S n)).
Proof.
  induction n as [|n IH]; intros ts Hn; [lia|].
  assert (Hsum : agree_below n
                   (chain additive (chain multiplicative (spec_factor n) n) n)
                   (chain additive (chain multiplicative (spec_factor (S n)) (S n))
                      (S n))).
  { apply chain_fuel; [| |lia|lia].
    - apply chain_fuel; [exact IH|apply spec_factor_shrinks|lia|lia].
    - apply chain_shrinks, spec_factor_shrinks. }
  destruct ts as [|t ts1]; [reflexivity|]. simpl in Hn.
  destruct t; try reflexivity.
  - change (match spec_factor n ts1 with
            | Some (a, ts2) => Some (Neg a, ts2)
            | None => None
            end =
            match spec_factor (S n) ts1 with
            | Some (a, ts2) => Some (Neg a, ts2)
            | None => None
            end).
    rewrite (IH ts1) by lia. reflexivity.
  - change (spec_atom (chain additive (chain multiplicative (spec_factor n) n) n)
              (LPAR :: ts1) =
            spec_atom
              (chain additive (chain multiplicative (spec_factor (S n)) (S n)) (S n))
              (LPAR :: ts1)).
    unfold spec_atom. rewrite (Hsum ts1) by lia. reflexivity.
Qed.

(** The same for the reference parser. *)
Theorem spec_sum_fuel ts n :
  (List.length ts < n)%nat -> spec_sum n ts = spec_sum (S (List.length ts)) ts.
Proof.
  intros H. induction n as [|n IH]; [lia|].
  destruct (Nat.eq_dec n (List.length ts)) as [->|Hne]; [reflexivity|].
  rewrite <- IH by lia. symmetry.
  unfold spec_sum, spec_term.
  apply chain_fuel with (k := n); [| |lia|lia|lia].
  - apply chain_fuel; [apply spec_factor_fuel|apply spec_factor_shrinks|lia|lia].
  - apply chain_shrinks, spec_factor_shrinks.
Qed.

(** ** Parentheses and the last operator, read off the characters *)

Lemma scan_cons p c rest :
  scan p (c :: rest) =
    if is_digit c then scan (push p c) rest
    else if Ascii.eqb c "." then
      match p with
      | InWhole ds => scan (InFraction ds []) rest
      | _ =>
          flush p
            match rest with
            | "."%char :: "."%char :: rest' => ELLIPSIS :: scan Idle rest'
            | d :: _ =>
                if is_digit d then scan (InFraction [] []) rest
                else DOT :: scan Idle rest
            | [] => [DOT]
            end
      end
    else
      flush p
        (if Ascii.eqb c " " then scan Idle rest
         else if Ascii.eqb c "+" then PLUS :: scan Idle rest
         else if Ascii.eqb c "-" then MINUS :: scan Idle rest
         else if Ascii.eqb c "(" then LPAR :: scan Idle rest
         else if Ascii.eqb c ")" then RPAR :: scan Idle rest
         else if Ascii.eqb c "*" then
           match rest with
           | "*"%char :: rest' => DOUBLESTAR :: scan Idle rest'
           | _ => STAR :: scan Idle rest
           end
         else if Ascii.eqb c "/" then
           match rest with
           | "/"%char :: rest' => DOUBLESLASH :: scan Idle rest'
           | _ => SLASH :: scan Idle rest
           end
         else ERRORTOKEN c :: scan Idle rest).
Proof. reflexivity. Qed.

Lemma nesting_flush p l d : nesting d (flush p l) = nesting d l.
Proof. destruct p; reflexivity. Qed.

Lemma paren_depth_cons_other c rest d :
  Ascii.eqb c "(" = false -> Ascii.eqb c ")" = false ->
  paren_depth d (c :: rest) = paren_depth d rest.
Proof. intros H1 H2. simpl. rewrite H1, H2. reflexivity. Qed.

(** The scanner keeps the parentheses: one token each, in order. *)
Lemma nesting_scan n : forall cs, (List.length cs <= n)%nat ->
  forall p d, nesting d (scan p cs) = paren_depth d cs.
Proof.
  induction n as [|n IH]; intros cs Hn p d.
  - destruct cs; [|simpl in Hn; lia]. simpl. apply (nesting_flush p []).
  - destruct cs as [|c rest]; [apply (nesting_flush p [])|].
    simpl in Hn. assert (Hrest : (List.length rest <= n)%nat) by lia.
    rewrite scan_cons.
    destruct (is_digit c) eqn:Ed.
    { rewrite (IH _ Hrest), paren_depth_cons_other; [reflexivity| |];
        apply not_true_is_false; intros H; apply Ascii.eqb_eq in H; subst c;
        discriminate. }
    destruct (Ascii.eqb_spec c ".") as [->|Hdot].
    { rewrite (paren_depth_cons_other "." rest d eq_refl eq_refl).
      assert (Hd : nesting d
                (match rest with
                 | "."%char :: "."%char :: rest' => ELLIPSIS :: scan Idle rest'
                 | d0 :: _ =>
                     if is_digit d0 then scan (InFraction [] []) rest
                     else DOT :: scan Idle rest
                 | [] => [DOT]
                 end) = paren_depth d rest).
      { destruct rest as [|c1 rest1]; [reflexivity|].
        destruct (Ascii.eqb_spec c1 ".") as [->|Hc1].
        - destruct rest1 as [|c2 rest2].
          + reflexivity.
          + destruct (Ascii.eqb_spec c2 ".") as [->|Hc2].
            * cbn [nesting]. rewrite IH by (simpl in Hrest; lia). reflexivity.
            * replace (match c2 :: rest2 with
                       | "."%char :: rest' => ELLIPSIS :: scan Idle rest'
                       | _ => if is_digit "." then scan (InFraction [] []) ("."%char :: c2 :: rest2)
                              else DOT :: scan Idle ("."%char :: c2 :: rest2)
                       end)
                with (DOT :: scan Idle ("."%char :: c2 :: rest2)).
              -- cbn [nesting]. apply IH. exact Hrest.
              -- destruct c2 as [[] [] [] [] [] [] [] []]; try reflexivity.
                 exfalso. apply Hc2. reflexivity.
        - replace (match c1 :: rest1 with
                   | "."%char :: "."%char :: rest' => ELLIPSIS :: scan Idle rest'
                   | d0 :: _ =>
                       if is_digit d0 then scan (InFraction [] []) (c1 :: rest1)
                       else DOT :: scan Idle (c1 :: rest1)
                   | [] => [DOT]
                   end)
            with (if is_digit c1 then scan (InFraction [] []) (c1 :: rest1)
                  else DOT :: scan Idle (c1 :: rest1)).
          + destruct (is_digit c1); [|cbn [nesting]]; apply IH; exact Hrest.
          + destruct c1 as [[] [] [] [] [] [] [] []]; try reflexivity.
            exfalso. apply Hc1. reflexivity. }
      destruct p; try (rewrite nesting_flush; exact Hd).
      apply IH. exact Hrest. }
    rewrite nesting_flush.
    destruct (Ascii.eqb_spec c "(") as [->|Hlp].
    { change (nesting (S d) (scan Idle rest) = paren_depth (S d) rest).
      apply IH. exact Hrest. }
    destruct (Ascii.eqb_spec c ")") as [->|Hrp].
    { change (match d with O => None | S d' => nesting d' (scan Idle rest) end
              = match d with O => None | S d' => paren_depth d' rest end).
      destruct d; [reflexivity|]. apply IH. exact Hrest. }
    assert (Hother : paren_depth d (c :: rest) = paren_depth d rest).
    { apply paren_depth_cons_other; apply Ascii.eqb_neq; assumption. }
    rewrite Hother.
    destruct (Ascii.eqb_spec c " ") as [->|Hsp]; [apply IH; exact Hrest|].
    destruct (Ascii.eqb_spec c "+") as [->|Hpl]; [apply IH; exact Hrest|].
    destruct (Ascii.eqb_spec c "-") as [->|Hmi]; [apply IH; exact Hrest|].
    destruct (Ascii.eqb_spec c "*") as [->|Hst].
    { destruct rest as [|c1 rest1]; [reflexivity|].
      destruct (Ascii.eqb_spec c1 "*") as [->|Hc1].
      - cbn [nesting]. rewrite IH by (simpl in Hrest; lia). reflexivity.
      - replace (match c1 :: rest1 with
                 | "*"%char :: rest' => DOUBLESTAR :: scan Idle rest'
                 | _ => STAR :: scan Idle (c1 :: rest1)
                 end) with (STAR :: scan Idle (c1 :: rest1)).
        + cbn [nesting]. apply IH. exact Hrest.
        + destruct c1 as [[] [] [] [] [] [] [] []]; try reflexivity.
          exfalso. apply Hc1. reflexivity. }
    destruct (Ascii.eqb_spec c "/") as [->|Hsl].
    { destruct rest as [|c1 rest1]; [reflexivity|].
      destruct (Ascii.eqb_spec c1 "/") as [->|Hc1].
      - cbn [nesting]. rewrite IH by (simpl in Hrest; lia). reflexivity.
      - replace (match c1 :: rest1 with
                 | "/"%char :: rest' => DOUBLESLASH :: scan Idle rest'
                 | _ => SLASH :: scan Idle (c1 :: rest1)
                 end) with (SLASH :: scan Idle (c1 :: rest1)).
        + cbn [nesting]. apply IH. exact Hrest.
        + destruct c1 as [[] [] [] [] [] [] [] []]; try reflexivity.
          exfalso. apply Hc1. reflexivity. }
    cbn [nesting]. apply IH. exact Hrest.
Qed.

Theorem balanced_tokens s : balanced (tokens s) = parentheses_balance s.
Proof.
  unfold balanced, parentheses_balance, tokens.
  rewrite (nesting_scan _ _ (Nat.le_refl _)). reflexivity.
Qed.

Lemma scan_spaces cs :
  forallb (Ascii.eqb " ") cs = true -> scan Idle cs = [].
Proof.
  induction cs as [|c cs IH]; [reflexivity|]. intros H. cbn [forallb] in H.
  apply andb_prop in H. destruct H as [Hc H].
  apply Ascii.eqb_eq in Hc. subst c. simpl. exact (IH H).
Qed.

Lemma last_is_operator_single t : is_operator t = true -> last_is_operator [t].
Proof. intros H. exists [], t. split; [reflexivity|exact H]. Qed.

Lemma last_is_operator_cons x l : last_is_operator l -> last_is_operator (x :: l).
Proof. intros (l' & t & -> & H). exists (x :: l'), t. split; [reflexivity|exact H]. Qed.

Lemma last_is_operator_flush p l :
  last_is_operator l -> last_is_operator (flush p l).
Proof. destruct p; simpl; auto using last_is_operator_cons. Qed.

Lemma last_is_operator_trailing l :
  last_is_operator l -> trailing_operator l = true.
Proof.
  intros (l' & t & -> & H). unfold trailing_operator.
  rewrite rev_app_distr. exact H.
Qed.

Lemma last_visible_none cs :
  last_visible cs = None -> forallb (Ascii.eqb " ") cs = true.
Proof.
  induction cs as [|c rest IH]; [reflexivity|]. cbn [last_visible forallb].
  destruct (last_visible rest); [discriminate|].
  destruct (Ascii.eqb_spec c " ") as [->|]; [|discriminate].
  intros _. rewrite (IH eq_refl). reflexivity.
Qed.

Lemma last_visible_tail c rest x :
  last_visible (c :: rest) = Some x -> c <> x -> last_visible rest = Some x.
Proof.
  cbn [last_visible]. destruct (last_visible rest); [trivial|].
  destruct (Ascii.eqb c " "); [discriminate|]. intros [= ->] H. contradiction.
Qed.

(** When the last visible character is an operator, so is the last token. *)
Lemma scan_ends_operator n : forall cs, (List.length cs <= n)%nat ->
  forall c, last_visible cs = Some c -> is_operator_char c = true ->
  forall p, last_is_operator (scan p cs).
Proof.
  induction n as [|n IH]; intros cs Hn c Hlv Hop p.
  - destruct cs; [discriminate|simpl in Hn; lia].
  - destruct cs as [|c0 rest]; [discriminate|].
    simpl in Hn. assert (Hrest : (List.length rest <= n)%nat) by lia.
    destruct (last_visible rest) as [x|] eqn:Er.
    + (* the operator is further on *)
      assert (x = c) by (cbn [last_visible] in Hlv; rewrite Er in Hlv; congruence).
      subst x.
      assert (Hgo : forall q, last_is_operator (scan q rest))
        by (intros q; exact (IH rest Hrest c Er Hop q)).
      rewrite scan_cons.
      destruct (is_digit c0); [apply Hgo|].
      destruct (Ascii.eqb c0 ".").
      { assert (Hd : last_is_operator
                  (match rest with
                   | "."%char :: "."%char :: rest' => ELLIPSIS :: scan Idle rest'
                   | d0 :: _ =>
                       if is_digit d0 then scan (InFraction [] []) rest
                       else DOT :: scan Idle rest
                   | [] => [DOT]
                   end)).
        { destruct rest as [|c1 rest1]; [discriminate|].
          destruct (Ascii.eqb_spec c1 ".") as [->|Hc1].
          - assert (E1 : last_visible rest1 = Some c).
            { apply (last_visible_tail _ _ _ Er). intros <-. discriminate. }
            destruct rest1 as [|c2 rest2]; [discriminate|].
            destruct (Ascii.eqb_spec c2 ".") as [->|Hc2].
            + apply last_is_operator_cons.
              apply (IH rest2) with (c := c); [simpl in Hrest; lia| |exact Hop].
              apply (last_visible_tail _ _ _ E1). intros <-. discriminate.
            + replace (match c2 :: rest2 with
                       | "."%char :: rest' => ELLIPSIS :: scan Idle rest'
                       | _ => if is_digit "." then scan (InFraction [] []) ("."%char :: c2 :: rest2)
                              else DOT :: scan Idle ("."%char :: c2 :: rest2)
                       end)
                with (DOT :: scan Idle ("."%char :: c2 :: rest2)).
              * apply last_is_operator_cons, Hgo.
              * destruct c2 as [[] [] [] [] [] [] [] []]; try reflexivity.
                exfalso. apply Hc2. reflexivity.
          - replace (match c1 :: rest1 with
                     | "."%char :: "."%char :: rest' => ELLIPSIS :: scan Idle rest'
                     | d0 :: _ =>
                         if is_digit d0 then scan (InFraction [] []) (c1 :: rest1)
                         else DOT :: scan Idle (c1 :: rest1)
                     | [] => [DOT]
                     end)
              with (if is_digit c1 then scan (InFraction [] []) (c1 :: rest1)
                    else DOT :: scan Idle (c1 :: rest1)).
            + destruct (is_digit c1); [|apply last_is_operator_cons]; apply Hgo.
            + destruct c1 as [[] [] [] [] [] [] [] []]; try reflexivity.
              exfalso. apply Hc1. reflexivity. }
        destruct p; try (apply last_is_operator_flush; exact Hd). apply Hgo. }
      apply last_is_operator_flush.
      assert (Hdouble : forall (o : ascii) (two one : token),
        is_operator two = true ->
        last_is_operator
          (match rest with
           | c1 :: rest' =>
               if Ascii.eqb c1 o then two :: scan Idle rest'
               else one :: scan Idle rest
           | [] => one :: scan Idle rest
           end)).
      { intros o two one Htwo.
        destruct rest as [|c1 rest1]; [discriminate|].
        destruct (Ascii.eqb c1 o); [|apply last_is_operator_cons, Hgo].
        destruct (last_visible rest1) as [y|] eqn:E1.
        - apply last_is_operator_cons.
          apply (IH rest1) with (c := c); [simpl in Hrest; lia| |exact Hop].
          cbn [last_visible] in Er. rewrite E1 in Er. rewrite E1. exact Er.
        - rewrite (scan_spaces _ (last_visible_none _ E1)).
          apply last_is_operator_single, Htwo. }
      destruct (Ascii.eqb c0 " "); [apply Hgo|].
      destruct (Ascii.eqb c0 "+"); [apply last_is_operator_cons, Hgo|].
      destruct (Ascii.eqb c0 "-"); [apply last_is_operator_cons, Hgo|].
      destruct (Ascii.eqb c0 "("); [apply last_is_operator_cons, Hgo|].
      destruct (Ascii.eqb c0 ")"); [apply last_is_operator_cons, Hgo|].
      destruct (Ascii.eqb c0 "*").
      { replace (match rest with
                 | "*"%char :: rest' => DOUBLESTAR :: scan Idle rest'
                 | _ => STAR :: scan Idle rest
                 end)
          with (match rest with
                | c1 :: rest' =>
                    if Ascii.eqb c1 "*" then DOUBLESTAR :: scan Idle rest'
                    else STAR :: scan Idle rest
                | [] => STAR :: scan Idle rest
                end);
          [apply Hdouble; reflexivity|].
        destruct rest as [|c1 rest1]; [reflexivity|].
        destruct (Ascii.eqb_spec c1 "*") as [->|Hc1]; [reflexivity|].
        destruct c1 as [[] [] [] [] [] [] [] []]; try reflexivity.
        exfalso. apply Hc1. reflexivity. }
      destruct (Ascii.eqb c0 "/").
      { replace (match rest with
                 | "/"%char :: rest' => DOUBLESLASH :: scan Idle rest'
                 | _ => SLASH :: scan Idle rest
                 end)
          with (match rest with
                | c1 :: rest' =>
                    if Ascii.eqb c1 "/" then DOUBLESLASH :: scan Idle rest'
                    else SLASH :: scan Idle rest
                | [] => SLASH :: scan Idle rest
                end);
          [apply Hdouble; reflexivity|].
        destruct rest as [|c1 rest1]; [reflexivity|].
        destruct (Ascii.eqb_spec c1 "/") as [->|Hc1]; [reflexivity|].
        destruct c1 as [[] [] [] [] [] [] [] []]; try reflexivity.
        exfalso. apply Hc1. reflexivity. }
      apply last_is_operator_cons, Hgo.
    + (* the operator is [c0], followed by spaces *)
      assert (Hsp := last_visible_none _ Er).
      cbn [last_visible] in Hlv. rewrite Er in Hlv.
      destruct (Ascii.eqb c0 " "); [discriminate|]. injection Hlv as ->.
      assert (Hnil : scan Idle rest = []) by (apply scan_spaces, Hsp).
      unfold is_operator_char in Hop. rewrite scan_cons.
      destruct (Ascii.eqb_spec c "+") as [Heq|Hpl].
      { subst c. cbn. rewrite Hnil.
        apply last_is_operator_flush, last_is_operator_single. reflexivity. }
      destruct (Ascii.eqb_spec c "-") as [Heq|Hmi].
      { subst c. cbn. rewrite Hnil.
        apply last_is_operator_flush, last_is_operator_single. reflexivity. }
      destruct (Ascii.eqb_spec c "*") as [Heq|Hst].
      { subst c. cbn. apply last_is_operator_flush.
        destruct rest as [|c1 rest1];
          [apply last_is_operator_single; reflexivity|].
        cbn [forallb] in Hsp. apply andb_prop in Hsp. destruct Hsp as [H1 _].
        apply Ascii.eqb_eq in H1. subst c1. rewrite Hnil.
        apply last_is_operator_single. reflexivity. }
      destruct (Ascii.eqb_spec c "/") as [Heq|Hsl]; [|discriminate].
      subst c. cbn. apply last_is_operator_flush.
      destruct rest as [|c1 rest1];
        [apply last_is_operator_single; reflexivity|].
      cbn [forallb] in Hsp. apply andb_prop in Hsp. destruct Hsp as [H1 _].
      apply Ascii.eqb_eq in H1. subst c1. rewrite Hnil.
      apply last_is_operator_single. reflexivity.
Qed.

Theorem ends_with_operator_tokens s :
  ends_with_operator s = true -> trailing_operator (tokens s) = true.
Proof.
  unfold ends_with_operator, tokens. intros H.
  destruct (last_visible (list_ascii_of_string s)) as [c|] eqn:E; [|discriminate].
  apply last_is_operator_trailing.
  exact (scan_ends_operator _ _ (Nat.le_refl _) c E H Idle).
Qed.

(** ** Evaluation agrees on reference trees *)

Lemma real_arith_real op x y :
  is_real x = true -> is_real y = true ->
  exists o, real_arith (binop_of op) x y = Some o /\
            forall v, o = Return v -> is_real v = true.
Proof.
  destruct x, y; try discriminate; intros _ _; destruct op; simpl;
    eexists; (split; [reflexivity|]); intros v;
    unfold int_to_float;
    repeat match goal with
           | |- context [if ?b then _ else _] => destruct b; simpl
           end;
    try discriminate; intros [= <-]; reflexivity.
Qed.

Lemma arith_eval_real a v : arith_eval a = Return v -> is_real v = true.
Proof.
  revert v. induction a as [lit|a IH|l IHl op r IHr]; simpl; intros v.
  - intros [= <-]. unfold number_value. destruct (fraction lit); reflexivity.
  - destruct (arith_eval a) as [x|]; [|discriminate]. simpl.
    specialize (IH x eq_refl). destruct x; try discriminate;
      intros [= <-]; reflexivity.
  - destruct (arith_eval l) as [x|]; [|discriminate].
    destruct (arith_eval r) as [y|]; [|discriminate]. simpl.
    destruct (real_arith_real op x y (IHl _ eq_refl) (IHr _ eq_refl))
      as (o & Ho & Hv).
    unfold apply_operator. rewrite Ho. apply Hv.
Qed.

Lemma binary_real py op x y :
  is_real x = true -> is_real y = true ->
  binary py (binop_of op) x y = apply_operator op x y.
Proof.
  destruct x, y; try discriminate; intros _ _; destruct op; reflexivity.
Qed.

Lemma eval_to_expr py a : eval_expr py (to_expr a) = arith_eval a.
Proof.
  induction a as [lit|a IH|l IHl op r IHr]; simpl.
  - reflexivity.
  - rewrite IH. reflexivity.
  - rewrite IHl, IHr.
    destruct (arith_eval l) as [x|] eqn:El; [|reflexivity].
    destruct (arith_eval r) as [y|] eqn:Er; [|reflexivity]. simpl.
    apply binary_real; eapply arith_eval_real; eassumption.
Qed.

(** * Facts about the handler *)

Lemma all_in_allowed_chars_string cs :
  all_in_allowed_chars (map (fun c => JStr (String c "")) cs)
  = Return (forallb allowed cs).
Proof.
  induction cs as [|c cs IH]; [reflexivity|].
  simpl. destruct (allowed c); [exact IH|reflexivity].
Qed.

Lemma handle_string eval fields s :
  posts fields s ->
  handle eval (Return (JObj fields)) =
    if String.eqb s "" then Run EmptyExpression []
    else if whitelisted s then Run (evaluate eval (JStr s)) [JStr s]
    else Run InvalidCharacters [].
Proof.
  unfold posts, handle, check, whitelisted. simpl. intros ->. simpl.
  destruct (String.eqb s ""); [reflexivity|]. simpl.
  rewrite all_in_allowed_chars_string. simpl.
  destruct (forallb allowed (list_ascii_of_string s)); reflexivity.
Qed.

Lemma whitelisted_nonempty_eval eval fields s :
  posts fields s -> s <> ""%string -> whitelisted s = true ->
  handle eval (Return (JObj fields)) = Run (evaluate eval (JStr s)) [JStr s].
Proof.
  intros Hp Hs Hw. rewrite (handle_string eval fields s Hp), Hw.
  destruct (String.eqb_spec s ""); [contradiction|reflexivity].
Qed.

Lemma posts_post s : posts [("expression"%string, JStr s)] s.
Proof. reflexivity. Qed.

Lemma float_eq_inf x : float_eq x inf = true <-> x = inf.
Proof.
  split; [|intros ->; reflexivity].
  destruct x as [b|b| |b m e]; try destruct b; try discriminate; reflexivity.
Qed.

Lemma float_eq_neg_inf x : float_eq x neg_inf = true <-> x = neg_inf.
Proof.
  split; [|intros ->; reflexivity].
  destruct x as [b|b| |b m e]; try destruct b; try discriminate; reflexivity.
Qed.

Lemma is_infinite_float_spec v :
  is_infinite_float v = true <-> v = VFloat inf \/ v = VFloat neg_inf.
Proof.
  split.
  - destruct v; try discriminate. simpl. intros H.
    apply orb_true_iff in H. destruct H as [H|H].
    + left. f_equal. apply float_eq_inf, H.
    + right. f_equal. apply float_eq_neg_inf, H.
  - intros [->| ->]; reflexivity.
Qed.

Lemma evaluate_raise eval s e :
  eval s = Raise e ->
  evaluate eval (JStr s) =
    if is_ZeroDivisionError e then DivisionByZero
    else if is_SyntaxError e then InvalidSyntax
    else error_response (exn_str e) 400.
Proof. unfold evaluate. simpl. intros ->. reflexivity. Qed.

Lemma evaluate_return eval s v :
  eval s = Return v ->
  evaluate eval (JStr s) =
    if is_infinite_float v then DivisionByZero
    else match to_json v with
         | Return j => Response (JObj [("result"%string, j)]) 200
         | Raise e => error_response (exn_str e) 400
         end.
Proof.
  unfold evaluate. cbn [builtin_eval]. intros ->. cbn [bind].
  destruct (is_infinite_float v); [reflexivity|].
  unfold result_response. destruct (to_json v) as [j|e] eqn:E; cbn [bind].
  - reflexivity.
  - destruct v; cbn [to_json] in E; try discriminate;
      try (injection E as <-; reflexivity).
    destruct (Z.abs n <? 10 ^ max_str_digits); [discriminate|].
    injection E as <-. reflexivity.
Qed.

Lemma evaluate_ext eval eval' s s' :
  eval s = eval' s' -> evaluate eval (JStr s) = evaluate eval' (JStr s').
Proof. unfold evaluate. cbn [builtin_eval]. intros ->. reflexivity. Qed.

Lemma py_eval_empty py : py_eval py "" = raise SyntaxError "invalid syntax".
Proof. reflexivity. Qed.

Lemma py_eval_whitelisted py s :
  whitelisted s = true ->
  py_eval py s =
    match stack_error py (tokens s) with
    | Some e => Raise e
    | None =>
        if syntax_limit (tokens s) then raise SyntaxError "invalid syntax"
        else
          match py_parse (tokens s) with
          | Some e => eval_expr py e
          | None => raise SyntaxError "invalid syntax"
          end
    end.
Proof. unfold py_eval, whitelisted. intros ->. reflexivity. Qed.

(** No stack overflows on a line of at most [safe_tokens] tokens, and
    such a line nests no deeper than [MAXLEVEL]. *)
Lemma stack_error_short py ts :
  (List.length ts <= safe_tokens)%nat -> stack_error py ts = None.
Proof.
  intros H. unfold stack_error.
  rewrite (proj2 (Nat.leb_le _ _) H). reflexivity.
Qed.

Lemma too_deep_short ts : forall d,
  (d + List.length ts <= MAXLEVEL)%nat -> too_deep d ts = false.
Proof.
  induction ts as [|t ts IH]; intros d H; [reflexivity|].
  cbn [List.length] in H.
  destruct t; cbn [too_deep]; try (apply IH; lia).
  rewrite (proj2 (Nat.leb_gt _ _)) by lia. apply IH. lia.
Qed.

(** Within the limits of the interpreter [eval] parses and evaluates. *)
Lemma py_eval_within py s :
  whitelisted s = true ->
  stack_error py (tokens s) = None -> syntax_limit (tokens s) = false ->
  py_eval py s =
    match py_parse (tokens s) with
    | Some e => eval_expr py e
    | None => raise SyntaxError "invalid syntax"
    end.
Proof.
  intros Hw Hk Hl. rewrite (py_eval_whitelisted py s Hw), Hk, Hl. reflexivity.
Qed.

(** A stack that overflows apart, [eval] raises a [SyntaxError] on what
    the grammar rejects and on what the compiler refuses for its size. *)
Lemma py_eval_syntax_error py s :
  whitelisted s = true -> stack_error py (tokens s) = None ->
  syntax_limit (tokens s) = true \/ py_parse (tokens s) = None ->
  py_eval py s = raise SyntaxError "invalid syntax".
Proof.
  intros Hw Hk H. rewrite (py_eval_whitelisted py s Hw), Hk.
  destruct (syntax_limit (tokens s)); [reflexivity|].
  destruct H as [H|H]; [discriminate|]. rewrite H. reflexivity.
Qed.


Lemma spaces_whitelisted cs :
  forallb (Ascii.eqb " ") cs = true -> forallb allowed cs = true.
Proof.
  induction cs as [|c cs IH]; [reflexivity|]. intros H. cbn [forallb] in H.
  apply andb_prop in H. destruct H as [Hc H].
  apply Ascii.eqb_eq in Hc. subst c. simpl. exact (IH H).
Qed.

Local Open Scope string_scope.

Lemma calculate_py py fields s :
  posts fields s -> whitelisted s = true -> s <> ""%string ->
  calculate (py_eval py) (Return (JObj fields)) = evaluate (py_eval py) (JStr s).
Proof.
  intros Hp Hw Hs. unfold calculate.
  rewrite (whitelisted_nonempty_eval _ _ _ Hp Hs Hw). reflexivity.
Qed.

Lemma calculate_syntax_error py fields s :
  posts fields s -> whitelisted s = true -> s <> ""%string ->
  stack_error py (tokens s) = None ->
  syntax_limit (tokens s) = true \/ py_parse (tokens s) = None ->
  calculate (py_eval py) (Return (JObj fields)) = InvalidSyntax.
Proof.
  intros Hp Hw Hs Hk Hn. rewrite (calculate_py py fields s Hp Hw Hs).
  rewrite (evaluate_raise _ s (Exn SyntaxError "invalid syntax")); [reflexivity|].
  exact (py_eval_syntax_error py s Hw Hk Hn).
Qed.

Lemma error_response_shape msg code :
  code <> 200 -> result_xor_error (error_response msg code).
Proof. intros Hc. right. repeat split. exact Hc. Qed.

Lemma evaluate_shape eval expression :
  result_xor_error (evaluate eval expression).
Proof.
  unfold evaluate.
  destruct (builtin_eval eval expression) as [v|e0]; cbn [bind].
  - destruct (is_infinite_float v); [apply error_response_shape; discriminate|].
    unfold result_response.
    destruct (to_json v) as [j|e0]; cbn [bind].
    + left. repeat split.
    + destruct (is_ZeroDivisionError e0); [apply error_response_shape; discriminate|].
      destruct (is_SyntaxError e0); apply error_response_shape; discriminate.
  - destruct (is_ZeroDivisionError e0); [apply error_response_shape; discriminate|].
    destruct (is_SyntaxError e0); apply error_response_shape; discriminate.
Qed.

Lemma check_reply request r :
  check request = Return (Reply r) ->
  r = EmptyExpression \/ r = InvalidCharacters.
Proof.
  unfold check.
  destruct request as [data|e0]; [|discriminate]. cbn [bind].
  destruct (get data "expression" (JStr "")) as [x|e0]; [|discriminate].
  cbn [bind]. destruct (negb (truthy x)).
  - intros [= <-]. left. reflexivity.
  - destruct (items <- iterate x;; all_in_allowed_chars items) as [ok|e0];
      [|discriminate].
    cbn [bind]. destruct (negb ok); [|discriminate].
    intros [= <-]. right. reflexivity.
Qed.

(** Serialising the result is part of the evaluation block: [...] evaluates
    to [Ellipsis], which [jsonify] refuses, and the answer has status
    400. *)
Example ellipsis_is_refused py :
  calculate (py_eval py) (post "...")
  = error_response "Object of type ellipsis is not JSON serializable" 400.
Proof. reflexivity. Qed.

Lemma allowed_digit_or_symbol c :
  allowed c = true <-> is_digit c = true \/ In c symbols.
Proof.
  split.
  - destruct c as [[] [] [] [] [] [] [] []]; try discriminate; intros _;
      first [left; reflexivity | right; simpl; tauto].
  - intros [H|H].
    + destruct c as [[] [] [] [] [] [] [] []]; try discriminate; reflexivity.
    + simpl in H.
      repeat (destruct H as [<-|H]; [reflexivity|]). destruct H.
Qed.

Lemma whitelisted_item_allowed j :
  whitelisted_item j -> in_allowed_chars j = Return true.
Proof.
  intros (c & -> & H). cbn [in_allowed_chars].
  rewrite (proj2 (allowed_digit_or_symbol c) H). reflexivity.
Qed.

(** The scan passes over whitelisted characters. *)
Lemma scan_whitelisted_items pre rest :
  Forall whitelisted_item pre ->
  all_in_allowed_chars (pre ++ rest) = all_in_allowed_chars rest.
Proof.
  induction 1 as [|j pre Hj _ IH]; [reflexivity|].
  cbn [app all_in_allowed_chars]. rewrite (whitelisted_item_allowed j Hj).
  exact IH.
Qed.

(** An item that can be hashed and is no whitelisted character stops the
    scan. *)
Lemma refused_item j :
  ~ unhashable j -> ~ whitelisted_item j -> in_allowed_chars j = Return false.
Proof.
  intros Hh Hw. destruct j as [|b|n|y|s|items|fs]; try reflexivity.
  - destruct s as [|c [|c' s']]; try reflexivity.
    cbn [in_allowed_chars]. destruct (allowed c) eqn:E; [|reflexivity].
    exfalso. apply Hw. exists c. split; [reflexivity|].
    apply allowed_digit_or_symbol, E.
  - exfalso. apply Hh. left. exists items. reflexivity.
  - exfalso. apply Hh. right. exists fs. reflexivity.
Qed.

Lemma nonempty_list_truthy items : items <> [] -> truthy (JArr items) = true.
Proof. destruct items; [contradiction|reflexivity]. Qed.

Lemma whitelisted_keys (fs : list (string * json)) :
  Forall (fun kv => whitelisted_item (JStr (fst kv))) fs ->
  Forall whitelisted_item (map (fun kv => JStr (fst kv)) fs).
Proof. induction 1; constructor; assumption. Qed.

(** * The claims *)

(** C1.  A request whose expression is a string with at least one character
    outside [0-9 + - * / . ( )] and the space is answered with status 400
    and the InvalidCharacters error, whatever the evaluator is, and [eval]
    is not called. *)
Theorem C1_invalid_characters eval fields s :
  posts fields s ->
  (exists c, In c (list_ascii_of_string s) /\ allowed c = false) ->
  handle eval (Return (JObj fields)) = Run InvalidCharacters [].
Proof.
  intros Hp (c & Hin & Hc).
  assert (Hw : whitelisted s = false).
  { unfold whitelisted. apply not_true_is_false. intros H.
    rewrite forallb_forall in H. rewrite (H c Hin) in Hc. discriminate. }
  assert (Hs : s <> ""%string) by (intros ->; destruct Hin).
  rewrite (handle_string eval fields s Hp), Hw.
  destruct (String.eqb_spec s ""); [contradiction|reflexivity].
Qed.

Lemma C1_invalid_characters_witness :
  (exists c, In c (list_ascii_of_string "2+a") /\ allowed c = false) /\
  forall eval, handle eval (post "2+a") = Run InvalidCharacters [].
Proof.
  assert (H : exists c, In c (list_ascii_of_string "2+a") /\ allowed c = false).
  { exists "a"%char. split; [simpl; auto|reflexivity]. }
  split; [exact H|].
  intros eval. exact (C1_invalid_characters eval _ "2+a" (posts_post _) H).
Defined.

(** C2, amended.  An expression over the whitelisted characters that the
    four-operator grammar accepts, whose integer literals have no redundant
    leading zero, that stays within the limits of the interpreter (no stack
    overflows, as none does up to 100 tokens; at most 200 nested
    parentheses; no integer literal of more than 4300 digits), and whose
    evaluation in the standard order returns a number other than an
    infinity, an integer of at most 4300 digits if it is one, is answered
    with status 200 and that number as [result]; "2+2" gives 4 and
    "2*(3+4)" gives 14. *)
Theorem C2_standard_evaluation :
  (forall py fields s a v,
     posts fields s -> whitelisted s = true ->
     spec_parse (tokens s) = Some a -> plain_literals a = true ->
     stack_error py (tokens s) = None -> syntax_limit (tokens s) = false ->
     arith_eval a = Return v -> is_infinite_float v = false ->
     (forall n, v = VInt n -> Z.abs n < 10 ^ max_str_digits) ->
     is_real v = true /\
     result_response v = Return (calculate (py_eval py) (Return (JObj fields))))
  /\ (forall py, calculate (py_eval py) (post "2+2")
                 = Response (JObj [("result"%string, JInt 4)]) 200)
  /\ (forall py, calculate (py_eval py) (post "2*(3+4)")
                 = Response (JObj [("result"%string, JInt 14)]) 200).
Proof.
  split; [|split; intros py; vm_compute; reflexivity].
  intros py fields s a v Hp Hw Hs Ha Hk Hl Hv Hinf Hn.
  assert (Hne : s <> ""%string) by (intros ->; discriminate).
  assert (Hreal := arith_eval_real _ _ Hv).
  split; [exact Hreal|].
  rewrite (calculate_py py fields s Hp Hw Hne).
  assert (He : py_eval py s = Return v).
  { rewrite (py_eval_within py s Hw Hk Hl), (spec_parse_refines _ _ Hs Ha).
    rewrite eval_to_expr. exact Hv. }
  rewrite (evaluate_return _ _ _ He), Hinf.
  unfold result_response.
  destruct v as [n|x| | |]; try discriminate; [|reflexivity].
  cbn [to_json]. rewrite (proj2 (Z.ltb_lt _ _) (Hn n eq_refl)). reflexivity.
Qed.

Lemma C2_standard_evaluation_witness :
  let lit d := Lit (Literal [d] None) in
  let a := Bin (Bin (lit "8"%char) Divide (lit "4"%char)) Minus (lit "1"%char) in
  let v := VFloat (float_of_int 1) in
  spec_parse (tokens "8/4-1") = Some a /\ plain_literals a = true /\
  syntax_limit (tokens "8/4-1") = false /\
  arith_eval a = Return v /\ is_infinite_float v = false /\
  forall py,
    stack_error py (tokens "8/4-1") = None /\
    result_response v = Return (calculate (py_eval py) (post "8/4-1")).
Proof.
  intros lit a v.
  assert (Hw : whitelisted "8/4-1" = true) by (vm_compute; reflexivity).
  assert (Hs : spec_parse (tokens "8/4-1") = Some a) by (vm_compute; reflexivity).
  assert (Ha : plain_literals a = true) by (vm_compute; reflexivity).
  assert (Hl : syntax_limit (tokens "8/4-1") = false) by (vm_compute; reflexivity).
  assert (Hv : arith_eval a = Return v) by (vm_compute; reflexivity).
  assert (Hi : is_infinite_float v = false) by (vm_compute; reflexivity).
  assert (Hn : forall n, v = VInt n -> Z.abs n < 10 ^ max_str_digits)
    by (intros n; discriminate).
  repeat (split; [assumption|]).
  intros py.
  assert (Hk : stack_error py (tokens "8/4-1") = None) by reflexivity.
  split; [exact Hk|].
  exact (proj2 (proj1 C2_standard_evaluation py _ "8/4-1" a v
                  (posts_post _) Hw Hs Ha Hk Hl Hv Hi Hn)).
Defined.

(** C2 as stated fails: "1/0" and "012" are well-formed arithmetic, and are
    answered with status 400. *)
Lemma C2_counterexample :
  (well_formed "1/0" = true /\ whitelisted "1/0" = true /\
   forall py, calculate (py_eval py) (post "1/0") = DivisionByZero) /\
  (well_formed "012" = true /\ whitelisted "012" = true /\
   forall py, calculate (py_eval py) (post "012") = InvalidSyntax).
Proof.
  split; (split; [reflexivity|]; split; [reflexivity|]);
    intros py; vm_compute; reflexivity.
Qed.

(** C3, amended.  When the expression field is absent or is the empty
    string the answer is status 400 with EmptyExpression.  A non-empty
    string of spaces is not trimmed: it passes the whitelist, the evaluator
    finds no expression in it, and the answer is status 400 with
    InvalidSyntax. *)
Theorem C3_empty_expression :
  (forall eval fields,
     lookup "expression" fields = None \/ posts fields "" ->
     calculate eval (Return (JObj fields)) = EmptyExpression)
  /\
  (forall py fields s,
     posts fields s -> s <> ""%string ->
     forallb (Ascii.eqb " ") (list_ascii_of_string s) = true ->
     calculate (py_eval py) (Return (JObj fields)) = InvalidSyntax).
Proof.
  split.
  - intros eval fields [H|H]; unfold calculate, handle, check; simpl;
      unfold posts in *; rewrite H; reflexivity.
  - intros py fields s Hp Hs Hsp.
    assert (Ht : tokens s = []) by (unfold tokens; apply scan_spaces, Hsp).
    apply (calculate_syntax_error py fields s Hp);
      [apply spaces_whitelisted, Hsp|exact Hs| |].
    + rewrite Ht. reflexivity.
    + right. rewrite Ht. reflexivity.
Qed.

Lemma C3_empty_expression_witness :
  (forall eval, calculate eval (Return (JObj [])) = EmptyExpression) /\
  (forall eval, calculate eval (post "") = EmptyExpression) /\
  (forall py, calculate (py_eval py) (post "   ") = InvalidSyntax).
Proof.
  split; [|split].
  - intros eval. apply (proj1 C3_empty_expression). left. reflexivity.
  - intros eval. apply (proj1 C3_empty_expression). right. reflexivity.
  - intros py.
    apply (proj2 C3_empty_expression py _ "   " (posts_post _));
      [discriminate|reflexivity].
Defined.

(** C3 as stated fails: a single space is empty after trimming, and is
    answered with InvalidSyntax, not EmptyExpression. *)
Lemma C3_counterexample :
  strip " " = ""%string /\
  (forall py, calculate (py_eval py) (post " ") = InvalidSyntax) /\
  InvalidSyntax <> EmptyExpression.
Proof. split; [reflexivity|]. split; [intros py; reflexivity|discriminate]. Qed.

(** C4.  A whitelisted expression whose evaluation raises
    [ZeroDivisionError], or returns the float [inf] or [-inf], is answered
    with status 400 and DivisionByZero; "1/0" is one. *)
Theorem C4_division_by_zero :
  (forall py fields s,
     posts fields s -> whitelisted s = true ->
     (exists e, py_eval py s = Raise e /\ is_ZeroDivisionError e = true) \/
     py_eval py s = Return (VFloat inf) \/
     py_eval py s = Return (VFloat neg_inf) ->
     calculate (py_eval py) (Return (JObj fields)) = DivisionByZero)
  /\ forall py, calculate (py_eval py) (post "1/0") = DivisionByZero.
Proof.
  split; [|intros py; reflexivity].
  intros py fields s Hp Hw H.
  assert (Hne : s <> ""%string).
  { intros ->. rewrite py_eval_empty in H.
    destruct H as [(e & [= <-] & He)|[H|H]]; discriminate. }
  rewrite (calculate_py py fields s Hp Hw Hne).
  destruct H as [(e & He & Hz)|[H|H]].
  - rewrite (evaluate_raise _ _ _ He), Hz. reflexivity.
  - rewrite (evaluate_return _ _ _ H). reflexivity.
  - rewrite (evaluate_return _ _ _ H). reflexivity.
Qed.

Lemma C4_division_by_zero_witness :
  (forall py, py_eval py huge = Return (VFloat inf)) /\
  (forall py, calculate (py_eval py) (post huge) = DivisionByZero).
Proof.
  assert (H : forall py, py_eval py huge = Return (VFloat inf))
    by (intros py; vm_compute; reflexivity).
  assert (Hw : whitelisted huge = true) by (vm_compute; reflexivity).
  split; [exact H|].
  intros py.
  exact (proj1 C4_division_by_zero py _ huge (posts_post _) Hw
           (or_intror (or_introl (H py)))).
Defined.

(** C5, amended.  A non-empty whitelisted expression on which no stack
    of the interpreter overflows (none does up to 100 tokens), and that
    Python's expression grammar rejects or the compiler refuses for its
    size (more than 200 nested parentheses, an integer literal of more than
    4300 digits), is answered with status 400 and InvalidSyntax; this covers
    every such expression whose parentheses do not balance and every one
    whose last character, spaces apart, is an operator, "((1+2)" among
    them. *)
Theorem C5_invalid_syntax :
  (forall py fields s,
     posts fields s -> s <> "" -> whitelisted s = true ->
     stack_error py (tokens s) = None ->
     parentheses_balance s = false \/ ends_with_operator s = true \/
     py_parse (tokens s) = None \/ syntax_limit (tokens s) = true ->
     calculate (py_eval py) (Return (JObj fields)) = InvalidSyntax)
  /\ forall py, calculate (py_eval py) (post "((1+2)") = InvalidSyntax.
Proof.
  split; [|intros py; vm_compute; reflexivity].
  intros py fields s Hp Hs Hw Hk H.
  apply (calculate_syntax_error py fields s Hp Hw Hs Hk).
  destruct (py_parse (tokens s)) as [e|] eqn:E; [|right; reflexivity].
  destruct (py_parse_shape _ _ E) as [Hb Ht].
  rewrite balanced_tokens in Hb.
  destruct H as [H|[H|[H|H]]]; [congruence| |congruence|left; exact H].
  apply ends_with_operator_tokens in H. congruence.
Qed.

Lemma C5_invalid_syntax_witness :
  parentheses_balance "(1+2" = false /\
  ends_with_operator "3* " = true /\
  syntax_limit (tokens (ones 4301)) = true /\
  (forall py, stack_error py (tokens "(1+2") = None /\
              calculate (py_eval py) (post "(1+2") = InvalidSyntax) /\
  (forall py, stack_error py (tokens "3* ") = None /\
              calculate (py_eval py) (post "3* ") = InvalidSyntax) /\
  (forall py, stack_error py (tokens (ones 4301)) = None /\
              calculate (py_eval py) (post (ones 4301)) = InvalidSyntax).
Proof.
  assert (Hb : parentheses_balance "(1+2" = false) by reflexivity.
  assert (Ht : ends_with_operator "3* " = true) by reflexivity.
  assert (Hl : syntax_limit (tokens (ones 4301)) = true)
    by (vm_compute; reflexivity).
  assert (Hw : whitelisted (ones 4301) = true) by (vm_compute; reflexivity).
  assert (Hk : forall py, stack_error py (tokens (ones 4301)) = None)
    by (intros py; vm_compute; reflexivity).
  repeat (split; [assumption|]).
  split; [|split]; intros py.
  - split; [reflexivity|].
    refine (proj1 C5_invalid_syntax py _ "(1+2" (posts_post _) _ eq_refl
              eq_refl (or_introl Hb)).
    discriminate.
  - split; [reflexivity|].
    refine (proj1 C5_invalid_syntax py _ "3* " (posts_post _) _ eq_refl
              eq_refl (or_intror (or_introl Ht))).
    discriminate.
  - split; [exact (Hk py)|].
    refine (proj1 C5_invalid_syntax py _ (ones 4301) (posts_post _) _ Hw
              (Hk py) (or_intror (or_intror (or_intror Hl)))).
    discriminate.
Defined.

(** C5 as stated fails: "()" and "2**3" are not four-operator arithmetic
    (an empty sub-expression, an operator after an operator), and both are
    evaluated and answered with status 200. *)
Lemma C5_counterexample :
  (well_formed "()" = false /\ whitelisted "()" = true /\
   forall py, calculate (py_eval py) (post "()")
              = Response (JObj [("result", JArr [])]) 200) /\
  (well_formed "2**3" = false /\ whitelisted "2**3" = true /\
   forall py, calculate (py_eval py) (post "2**3")
              = Response (JObj [("result", JInt 8)]) 200).
Proof.
  split; (split; [reflexivity|]; split; [reflexivity|]);
    intros py; vm_compute; reflexivity.
Qed.

(** C6.  The payload of every answer of [calculate] has exactly one of the
    fields [result] and [error]: [result] alone with status 200, [error]
    alone with any other status. *)
Theorem C6_result_xor_error eval request :
  let r := calculate eval request in
  (status r = 200 /\ has_field "result" (body r) = true
                  /\ has_field "error" (body r) = false) \/
  (status r <> 200 /\ has_field "error" (body r) = true
                   /\ has_field "result" (body r) = false).
Proof.
  change (result_xor_error (calculate eval request)).
  unfold calculate, handle.
  destruct (check request) as [[r|expression]|e] eqn:E; cbn [resp].
  - destruct (check_reply _ _ E) as [-> | ->];
      apply error_response_shape; discriminate.
  - apply evaluate_shape.
  - apply error_response_shape. discriminate.
Qed.



(** C8.  Of the values the evaluator returns, only the floats [inf] and
    [-inf] are classified as DivisionByZero; a [nan] is returned as
    [result] with status 200. *)
Theorem C8_nan_is_success py fields s v :
  posts fields s -> whitelisted s = true -> py_eval py s = Return v ->
  (calculate (py_eval py) (Return (JObj fields)) = DivisionByZero
   <-> v = VFloat inf \/ v = VFloat neg_inf) /\
  (v = VFloat nan ->
   calculate (py_eval py) (Return (JObj fields))
   = Response (JObj [("result", JFloat nan)]) 200).
Proof.
  intros Hp Hw Hv.
  assert (Hne : s <> "").
  { intros ->. rewrite py_eval_empty in Hv. discriminate. }
  rewrite (calculate_py py fields s Hp Hw Hne), (evaluate_return _ _ _ Hv).
  split.
  - rewrite <- is_infinite_float_spec.
    destruct (is_infinite_float v); [split; reflexivity|].
    split; [|discriminate].
    destruct v as [n|x| | |]; try discriminate.
    cbn [to_json]. destruct (Z.abs n <? 10 ^ max_str_digits)%Z; discriminate.
  - intros ->. reflexivity.
Qed.

Lemma C8_nan_is_success_witness :
  whitelisted inf_minus_inf = true /\
  (forall py, py_eval py inf_minus_inf = Return (VFloat nan)) /\
  (forall py, calculate (py_eval py) (post inf_minus_inf)
              = Response (JObj [("result", JFloat nan)]) 200).
Proof.
  assert (Hw : whitelisted inf_minus_inf = true) by (vm_compute; reflexivity).
  assert (Hv : forall py, py_eval py inf_minus_inf = Return (VFloat nan))
    by (intros py; vm_compute; reflexivity).
  split; [exact Hw|]. split; [exact Hv|]. intros py.
  exact (proj2 (C8_nan_is_success py _ inf_minus_inf (VFloat nan)
                  (posts_post _) Hw (Hv py)) eq_refl).
Defined.

(** C9.  [GET /health] is answered with status 200 and the payload
    [{"status": "healthy"}], after any sequence of earlier requests. *)
Theorem C9_health eval prior :
  serve eval GET_health = Json (Response (JObj [("status", JStr "healthy")]) 200)
  /\ serve_all eval (prior ++ [GET_health])
     = (serve_all eval prior
          ++ [Json (Response (JObj [("status", JStr "healthy")]) 200)])%list.
Proof.
  split; [reflexivity|]. unfold serve_all. rewrite map_app. reflexivity.
Qed.

(** C10, amended.  When the expression is not a string:
    - [null], [false], [0], [0.0], [-0.0], [[]] and [{}] are answered with
      status 400 and EmptyExpression;
    - [true], a number other than zero and any other float are answered
      with status 500 and "Server error: '<type>' object is not iterable";
    - a non-empty list is scanned item by item up to the first item that is
      not a whitelisted character: if that item is a list or an object the
      answer is status 500 with "Server error: unhashable type: ...", any
      other such item gives status 400 with InvalidCharacters, and when all
      items are whitelisted characters the evaluator's refusal of a
      non-string gives status 400;
    - a non-empty object is scanned key by key in the same way: a key that
      is not a whitelisted character gives InvalidCharacters, and when all
      keys are, the answer is the status 400 of the evaluator's refusal. *)
Theorem C10_non_string_expression eval fields x :
  lookup "expression" fields = Some x ->
  let answer := calculate eval (Return (JObj fields)) in
  (x = JNull \/ x = JBool false \/ x = JInt 0 \/
   (exists b, x = JFloat (S754_zero b)) \/ x = JArr [] \/ x = JObj [] ->
   answer = EmptyExpression) /\
  (x = JBool true -> answer = ServerError "'bool' object is not iterable") /\
  (forall n, x = JInt n -> n <> 0%Z ->
     answer = ServerError "'int' object is not iterable") /\
  (forall y, x = JFloat y -> (forall b, y <> S754_zero b) ->
     answer = ServerError "'float' object is not iterable") /\
  (forall pre inner post, x = JArr (pre ++ JArr inner :: post)%list ->
     Forall whitelisted_item pre ->
     answer = ServerError "unhashable type: 'list'") /\
  (forall pre inner post, x = JArr (pre ++ JObj inner :: post)%list ->
     Forall whitelisted_item pre ->
     answer = ServerError "unhashable type: 'dict'") /\
  (forall pre bad post, x = JArr (pre ++ bad :: post)%list ->
     Forall whitelisted_item pre ->
     ~ unhashable bad -> ~ whitelisted_item bad ->
     answer = InvalidCharacters) /\
  (forall items, x = JArr items -> items <> [] ->
     Forall whitelisted_item items ->
     answer = error_response
                "eval() arg 1 must be a string, bytes or code object" 400) /\
  (forall pre k v post, x = JObj (pre ++ (k, v) :: post)%list ->
     Forall (fun kv => whitelisted_item (JStr (fst kv))) pre ->
     ~ whitelisted_item (JStr k) ->
     answer = InvalidCharacters) /\
  (forall fs, x = JObj fs -> fs <> [] ->
     Forall (fun kv => whitelisted_item (JStr (fst kv))) fs ->
     answer = error_response
                "eval() arg 1 must be a string, bytes or code object" 400).
Proof.
  intros Hx answer.
  assert (Hans : answer =
    resp (match
            (if negb (truthy x)
             then Return (Reply (error_response "Empty expression" 400))
             else
               ok <- (items <- iterate x ;; all_in_allowed_chars items) ;;
               if negb ok
               then Return (Reply (error_response
                                     "Invalid characters in expression" 400))
               else Return (Evaluate x))
          with
          | Return (Reply r0) => Run r0 []
          | Return (Evaluate expression) =>
              Run (evaluate eval expression) [expression]
          | Raise e =>
              Run (error_response ("Server error: " ++ exn_str e) 500) []
          end)).
  { unfold answer, calculate, handle, check.
    cbn [bind get]. rewrite Hx. reflexivity. }
  rewrite Hans. clear Hans Hx answer.
  repeat split.
  - intros [->|[->|[->|[[b ->]|[->| ->]]]]]; reflexivity.
  - intros ->. reflexivity.
  - intros n -> Hn. cbn [truthy].
    apply Z.eqb_neq in Hn. rewrite Hn. reflexivity.
  - intros y -> Hy.
    destruct y as [b| | |]; try reflexivity. exfalso. exact (Hy b eq_refl).
  - intros pre inner post -> Hpre.
    rewrite nonempty_list_truthy by (destruct pre; discriminate).
    cbn [negb iterate bind]. rewrite (scan_whitelisted_items _ _ Hpre).
    reflexivity.
  - intros pre inner post -> Hpre.
    rewrite nonempty_list_truthy by (destruct pre; discriminate).
    cbn [negb iterate bind]. rewrite (scan_whitelisted_items _ _ Hpre).
    reflexivity.
  - intros pre bad post -> Hpre Hh Hb.
    rewrite nonempty_list_truthy by (destruct pre; discriminate).
    cbn [negb iterate bind]. rewrite (scan_whitelisted_items _ _ Hpre).
    cbn [all_in_allowed_chars]. rewrite (refused_item _ Hh Hb). reflexivity.
  - intros items -> Hne Hall.
    rewrite nonempty_list_truthy by exact Hne.
    cbn [negb iterate bind].
    rewrite <- (app_nil_r items), (scan_whitelisted_items _ _ Hall).
    reflexivity.
  - intros pre k v post -> Hpre Hb. cbn [truthy].
    replace (match (pre ++ (k, v) :: post)%list with [] => false | _ :: _ => true end)
      with true by (destruct pre; reflexivity).
    cbn [negb iterate bind]. rewrite map_app. cbn [map fst].
    rewrite (scan_whitelisted_items _ _ (whitelisted_keys _ Hpre)).
    cbn [all_in_allowed_chars].
    rewrite (refused_item (JStr k)); [reflexivity| |exact Hb].
    intros [[items H]|[fs H]]; discriminate.
  - intros fs -> Hne Hall. cbn [truthy].
    replace (match fs with [] => false | _ :: _ => true end)
      with true by (destruct fs; [contradiction|reflexivity]).
    cbn [negb iterate bind].
    rewrite <- (app_nil_r (map _ fs)),
      (scan_whitelisted_items _ _ (whitelisted_keys _ Hall)).
    reflexivity.
Qed.

Ltac whitelisted_items :=
  repeat constructor;
  eexists; (split; [reflexivity|]);
  first [left; reflexivity | right; simpl; tauto].

Ltac no_whitelisted_item :=
  let c := fresh "c" in
  let H := fresh "H" in
  let Hd := fresh "Hd" in
  intros (c & H & Hd);
  first [ discriminate H
        | injection H as <-; destruct Hd as [Hd|Hd];
          [discriminate Hd|simpl in Hd; intuition discriminate] ].

Ltac hashable :=
  let H := fresh "H" in intros [[? H]|[? H]]; discriminate H.

Lemma C10_non_string_expression_witness :
  let answer eval x := calculate eval (Return (JObj [("expression", x)])) in
  (forall eval, answer eval JNull = EmptyExpression) /\
  (forall eval, answer eval (JBool false) = EmptyExpression) /\
  (forall eval, answer eval (JInt 0) = EmptyExpression) /\
  (forall eval, answer eval (JFloat (S754_zero false)) = EmptyExpression) /\
  (forall eval, answer eval (JFloat (S754_zero true)) = EmptyExpression) /\
  (forall eval, answer eval (JArr []) = EmptyExpression) /\
  (forall eval, answer eval (JObj []) = EmptyExpression) /\
  (forall eval, answer eval (JBool true)
                = ServerError "'bool' object is not iterable") /\
  (forall eval, answer eval (JInt 123)
                = ServerError "'int' object is not iterable") /\
  (forall eval, answer eval (JFloat (float_of_int 2))
                = ServerError "'float' object is not iterable") /\
  (forall eval, answer eval (JArr [JArr []])
                = ServerError "unhashable type: 'list'") /\
  (forall eval, answer eval (JArr [JStr "1"; JObj []; JStr "a"])
                = ServerError "unhashable type: 'dict'") /\
  (forall eval, answer eval (JArr [JStr "1"; JStr "a"; JArr []])
                = InvalidCharacters) /\
  (forall eval, answer eval (JArr [JInt 1]) = InvalidCharacters) /\
  (forall eval, answer eval (JArr [JStr "12"]) = InvalidCharacters) /\
  (forall eval, answer eval (JArr [JStr "1"; JNull]) = InvalidCharacters) /\
  (forall eval, answer eval (JArr [JStr "2"; JStr "+"; JStr "2"])
                = error_response
                    "eval() arg 1 must be a string, bytes or code object" 400) /\
  (forall eval, answer eval (JObj [("1", JInt 2); ("a", JInt 3)])
                = InvalidCharacters) /\
  (forall eval, answer eval (JObj [("1", JInt 2)])
                = error_response
                    "eval() arg 1 must be a string, bytes or code object" 400).
Proof.
  intros answer.
  assert (H : forall eval x,
    let answer := answer eval x in
    (x = JNull \/ x = JBool false \/ x = JInt 0 \/
     (exists b, x = JFloat (S754_zero b)) \/ x = JArr [] \/ x = JObj [] ->
     answer = EmptyExpression) /\
    (x = JBool true -> answer = ServerError "'bool' object is not iterable") /\
    (forall n, x = JInt n -> n <> 0%Z ->
       answer = ServerError "'int' object is not iterable") /\
    (forall y, x = JFloat y -> (forall b, y <> S754_zero b) ->
       answer = ServerError "'float' object is not iterable") /\
    (forall pre inner post, x = JArr (pre ++ JArr inner :: post)%list ->
       Forall whitelisted_item pre ->
       answer = ServerError "unhashable type: 'list'") /\
    (forall pre inner post, x = JArr (pre ++ JObj inner :: post)%list ->
       Forall whitelisted_item pre ->
       answer = ServerError "unhashable type: 'dict'") /\
    (forall pre bad post, x = JArr (pre ++ bad :: post)%list ->
       Forall whitelisted_item pre ->
       ~ unhashable bad -> ~ whitelisted_item bad ->
       answer = InvalidCharacters) /\
    (forall items, x = JArr items -> items <> [] ->
       Forall whitelisted_item items ->
       answer = error_response
                  "eval() arg 1 must be a string, bytes or code object" 400) /\
    (forall pre k v post, x = JObj (pre ++ (k, v) :: post)%list ->
       Forall (fun kv => whitelisted_item (JStr (fst kv))) pre ->
       ~ whitelisted_item (JStr k) ->
       answer = InvalidCharacters) /\
    (forall fs, x = JObj fs -> fs <> [] ->
       Forall (fun kv => whitelisted_item (JStr (fst kv))) fs ->
       answer = error_response
                  "eval() arg 1 must be a string, bytes or code object" 400)).
  { intros eval x.
    exact (C10_non_string_expression eval [("expression", x)] x eq_refl). }
  repeat match goal with |- _ /\ _ => split end; intros eval;
    match goal with
    | |- answer eval ?x = _ =>
        destruct (H eval x)
          as (Hfalsy & Htrue & Hint & Hfloat & Hlist & Hdict & Hbad & Hall
              & Hkey & Hkeys)
    end.
  - apply Hfalsy. auto.
  - apply Hfalsy. auto.
  - apply Hfalsy. auto.
  - apply Hfalsy. do 3 right. left. exists false. reflexivity.
  - apply Hfalsy. do 3 right. left. exists true. reflexivity.
  - apply Hfalsy. auto 6.
  - apply Hfalsy. auto 6.
  - apply Htrue. reflexivity.
  - apply (Hint 123%Z eq_refl). discriminate.
  - apply (Hfloat _ eq_refl). intros b. vm_compute. discriminate.
  - apply (Hlist [] [] [] eq_refl). constructor.
  - apply (Hdict [JStr "1"] [] [JStr "a"] eq_refl). whitelisted_items.
  - apply (Hbad [JStr "1"] (JStr "a") [JArr []] eq_refl);
      [whitelisted_items|hashable|no_whitelisted_item].
  - apply (Hbad [] (JInt 1) [] eq_refl);
      [constructor|hashable|no_whitelisted_item].
  - apply (Hbad [] (JStr "12") [] eq_refl);
      [constructor|hashable|no_whitelisted_item].
  - apply (Hbad [JStr "1"] JNull [] eq_refl);
      [whitelisted_items|hashable|no_whitelisted_item].
  - apply (Hall _ eq_refl); [discriminate|whitelisted_items].
  - apply (Hkey [("1", JInt 2)] "a" (JInt 3) [] eq_refl);
      [whitelisted_items|no_whitelisted_item].
  - apply (Hkeys _ eq_refl); [discriminate|whitelisted_items].
Defined.

(** C10 as stated fails: the list [["a"]] is truthy and is answered with
    status 400 and InvalidCharacters, not with status 500. *)
Lemma C10_counterexample :
  truthy (JArr [JStr "a"]) = true /\
  forall eval,
    calculate eval (Return (JObj [("expression", JArr [JStr "a"])]))
    = InvalidCharacters.
Proof. split; [reflexivity|]. intros eval. reflexivity. Qed.

(** * Further properties of [calculate]

    What the handler does with a request whatever the evaluator is: which
    failures it passes on, what it lets through to [eval], which part of the
    body it reads, and what a success carries. *)

Lemma evaluate_status eval x :
  status (evaluate eval x) = 200 \/ status (evaluate eval x) = 400.
Proof.
  unfold evaluate.
  destruct (builtin_eval eval x) as [v|e0]; cbn [bind].
  - destruct (is_infinite_float v); [right; reflexivity|].
    unfold result_response. destruct (to_json v) as [j|e0]; cbn [bind].
    + left. reflexivity.
    + destruct (is_ZeroDivisionError e0); [right; reflexivity|].
      destruct (is_SyntaxError e0); right; reflexivity.
  - destruct (is_ZeroDivisionError e0); [right; reflexivity|].
    destruct (is_SyntaxError e0); right; reflexivity.
Qed.

Lemma check_evaluate request x :
  check request = Return (Evaluate x) ->
  exists fields,
    request = Return (JObj fields) /\ lookup "expression" fields = Some x /\
    truthy x = true /\
    (items <- iterate x ;; all_in_allowed_chars items) = Return true.
Proof.
  unfold check.
  destruct request as [data|e0]; [|discriminate]. cbn [bind].
  destruct data as [|b|n|y|s|items|fields]; try discriminate.
  cbn [get bind].
  destruct (lookup "expression" fields) as [x0|] eqn:El; [|discriminate].
  destruct (truthy x0) eqn:Et; [|discriminate]. cbn [negb].
  destruct (items <- iterate x0;; all_in_allowed_chars items) as [[|]|e0] eqn:Ea;
    try discriminate.
  cbn [bind negb]. intros [= <-]. exists fields. auto.
Qed.

(** X1.  An exception of the evaluator that is neither a
    [ZeroDivisionError] nor a [SyntaxError] is answered with status 400 and
    the exception's own text as the error, unchanged. *)
Theorem other_failures_pass_through eval fields s e :
  posts fields s -> s <> "" -> whitelisted s = true ->
  eval s = Raise e ->
  is_ZeroDivisionError e = false -> is_SyntaxError e = false ->
  calculate eval (Return (JObj fields)) = error_response (exn_str e) 400.
Proof.
  intros Hp Hs Hw He Hz Hy. unfold calculate.
  rewrite (whitelisted_nonempty_eval _ _ _ Hp Hs Hw). cbn [resp].
  rewrite (evaluate_raise _ _ _ He), Hz, Hy. reflexivity.
Qed.

Lemma other_failures_pass_through_witness :
  (forall py, py_eval py "1(2)"
              = raise TypeError "'int' object is not callable") /\
  (forall py, calculate (py_eval py) (post "1(2)")
              = error_response "'int' object is not callable" 400).
Proof.
  assert (H : forall py, py_eval py "1(2)"
                         = raise TypeError "'int' object is not callable")
    by (intros py; reflexivity).
  assert (Hs : "1(2)" <> "") by discriminate.
  split; [exact H|]. intros py.
  exact (other_failures_pass_through (py_eval py) _ "1(2)" _
           (posts_post _) Hs eq_refl (H py) eq_refl eq_refl).
Defined.

(** X2.  A result the JSON provider does not know, a complex number or
    [Ellipsis], is refused inside the evaluation block: the answer is
    status 400 with the provider's message, not a success and not a server
    error. *)
Theorem unserialisable_result_is_refused eval fields s v :
  posts fields s -> s <> "" -> whitelisted s = true ->
  eval s = Return v ->
  v = VEllipsis \/ (exists re im, v = VComplex re im) ->
  calculate eval (Return (JObj fields))
  = error_response
      ("Object of type " ++ value_type_name v ++ " is not JSON serializable") 400.
Proof.
  intros Hp Hs Hw He Hv. unfold calculate.
  rewrite (whitelisted_nonempty_eval _ _ _ Hp Hs Hw). cbn [resp].
  rewrite (evaluate_return _ _ _ He).
  destruct Hv as [->|(re & im & ->)]; reflexivity.
Qed.

Lemma unserialisable_result_is_refused_witness :
  (forall py, py_eval py "..." = Return VEllipsis) /\
  (forall py, calculate (py_eval py) (post "...")
              = error_response
                  "Object of type ellipsis is not JSON serializable" 400).
Proof.
  assert (H : forall py, py_eval py "..." = Return VEllipsis)
    by (intros py; reflexivity).
  assert (Hs : "..." <> "") by discriminate.
  split; [exact H|]. intros py.
  exact (unserialisable_result_is_refused (py_eval py) _ "..." VEllipsis
           (posts_post _) Hs eq_refl (H py) (or_introl eq_refl)).
Defined.

Lemma whitelisted_chars s :
  whitelisted s = true <->
  forall c, In c (list_ascii_of_string s) -> is_digit c = true \/ In c symbols.
Proof.
  unfold whitelisted. rewrite forallb_forall.
  split; intros H c Hc; apply allowed_digit_or_symbol, H, Hc.
Qed.

(** X3.  The answer depends on the evaluator only through what it does
    with non-empty whitelisted strings: two evaluators that agree on every
    non-empty string of digits and of [+ - * / . ( )] and spaces give the
    same answer to every request.  What [eval] would do with any other text
    never shows. *)
Theorem only_whitelisted_text_is_evaluated eval eval' request :
  (forall s, s <> "" ->
     (forall c, In c (list_ascii_of_string s) ->
                is_digit c = true \/ In c symbols) ->
     eval s = eval' s) ->
  calculate eval request = calculate eval' request.
Proof.
  intros Hagree. unfold calculate, handle.
  destruct (check request) as [[r|x]|e] eqn:E; cbn [resp]; try reflexivity.
  destruct (check_evaluate _ _ E) as (fields & Hr & Hl & Ht & Ha).
  destruct x as [|b|n|y|s|items|fs]; try reflexivity.
  apply evaluate_ext. apply Hagree.
  - intros ->. discriminate.
  - apply whitelisted_chars. unfold whitelisted.
    cbn [iterate bind] in Ha. rewrite all_in_allowed_chars_string in Ha.
    injection Ha as Ha. exact Ha.
Qed.

Lemma eval_expr_other_source py other e :
  eval_expr (with_other_source py other) e = eval_expr py e.
Proof. reflexivity. Qed.

Lemma only_whitelisted_text_is_evaluated_witness :
  (forall py other s, s <> "" ->
     (forall c, In c (list_ascii_of_string s) ->
                is_digit c = true \/ In c symbols) ->
     py_eval py s = py_eval (with_other_source py other) s) /\
  (forall py other request,
     calculate (py_eval py) request
     = calculate (py_eval (with_other_source py other)) request).
Proof.
  assert (H : forall py other s, s <> "" ->
     (forall c, In c (list_ascii_of_string s) ->
                is_digit c = true \/ In c symbols) ->
     py_eval py s = py_eval (with_other_source py other) s).
  { intros py other s _ Hs. apply whitelisted_chars in Hs.
    rewrite !(py_eval_whitelisted _ s Hs).
    change (stack_error (with_other_source py other) (tokens s))
      with (stack_error py (tokens s)).
    destruct (stack_error py (tokens s)); [reflexivity|].
    destruct (syntax_limit (tokens s)); [reflexivity|].
    destruct (py_parse (tokens s)); [|reflexivity].
    symmetry. apply eval_expr_other_source. }
  split; [exact H|]. intros py other request.
  exact (only_whitelisted_text_is_evaluated (py_eval py)
           (py_eval (with_other_source py other)) request (H py other)).
Defined.

(** X4.  Of the request body only the [expression] field is read: a body
    is answered as the body that holds this one field, with the empty string
    standing for an absent one.  No other field changes the answer or
    whether [eval] is called. *)
Theorem only_the_expression_is_read eval fields :
  handle eval (Return (JObj fields)) =
  handle eval
    (Return (JObj [("expression",
                    match lookup "expression" fields with
                    | Some x => x
                    | None => JStr ""
                    end)])).
Proof.
  unfold handle, check. cbn [bind get lookup].
  rewrite String.eqb_refl. reflexivity.
Qed.

(** X5.  A status 200 comes about in one way only: the expression is a
    string, [eval] was called on it and returned a value that is not an
    infinite float and that the JSON provider can write; the payload is that
    value as [result].  No success carries [inf] or [-inf]. *)
Theorem success_is_a_finite_result eval request :
  status (calculate eval request) = 200 ->
  exists s v j,
    eval_calls (handle eval request) = [JStr s] /\ eval s = Return v /\
    is_infinite_float v = false /\ to_json v = Return j /\
    calculate eval request = Response (JObj [("result", j)]) 200 /\
    j <> JFloat inf /\ j <> JFloat neg_inf.
Proof.
  unfold calculate, handle.
  destruct (check request) as [[r|x]|e] eqn:E; cbn [resp eval_calls].
  - destruct (check_reply _ _ E) as [-> | ->]; discriminate.
  - unfold evaluate.
    destruct (builtin_eval eval x) as [v|e0] eqn:Eb; cbn [bind].
    + destruct (is_infinite_float v) eqn:Ei; [discriminate|].
      unfold result_response. destruct (to_json v) as [j|e0] eqn:Ej; cbn [bind].
      * intros _. destruct x as [|b|n|y|s|items|fs]; try discriminate.
        exists s, v, j. repeat (split; [first [reflexivity|assumption]|]).
        split; intros ->; destruct v as [n|y| | |]; try discriminate.
        -- cbn [to_json] in Ej.
           destruct (Z.abs n <? 10 ^ max_str_digits)%Z; discriminate.
        -- injection Ej as ->. discriminate.
        -- cbn [to_json] in Ej.
           destruct (Z.abs n <? 10 ^ max_str_digits)%Z; discriminate.
        -- injection Ej as ->. discriminate.
      * destruct (is_ZeroDivisionError e0); [discriminate|].
        destruct (is_SyntaxError e0); discriminate.
    + destruct (is_ZeroDivisionError e0); [discriminate|].
      destruct (is_SyntaxError e0); discriminate.
  - discriminate.
Qed.

Lemma success_is_a_finite_result_witness :
  (forall py, status (calculate (py_eval py) (post "7/2")) = 200) /\
  (forall py, exists s v j,
     eval_calls (handle (py_eval py) (post "7/2")) = [JStr s] /\
     py_eval py s = Return v /\
     is_infinite_float v = false /\ to_json v = Return j /\
     calculate (py_eval py) (post "7/2") = Response (JObj [("result", j)]) 200 /\
     j <> JFloat inf /\ j <> JFloat neg_inf).
Proof.
  assert (H : forall py, status (calculate (py_eval py) (post "7/2")) = 200)
    by (intros py; vm_compute; reflexivity).
  split; [exact H|]. intros py.
  exact (success_is_a_finite_result (py_eval py) (post "7/2") (H py)).
Defined.

(** X6.  A JSON body that is not an object (an array, a string, a number,
    [true], [false], [null]) has no [get]: the answer is status 500 with
    the [AttributeError]'s text after "Server error: ", and [eval] is not
    called. *)
Theorem body_must_be_an_object eval data :
  (forall fields, data <> JObj fields) ->
  handle eval (Return data)
  = Run (ServerError ("'" ++ type_name data ++ "' object has no attribute 'get'"))
        [].
Proof.
  intros H. destruct data as [|b|n|y|s|items|fields]; try reflexivity.
  exfalso. exact (H fields eq_refl).
Qed.

Lemma body_must_be_an_object_witness :
  (forall eval, handle eval (Return (JArr [JStr "2+2"]))
                = Run (ServerError "'list' object has no attribute 'get'") []) /\
  (forall eval, handle eval (Return JNull)
                = Run (ServerError "'NoneType' object has no attribute 'get'") []).
Proof.
  split; intros eval.
  - refine (body_must_be_an_object eval (JArr [JStr "2+2"]) _).
    intros fields; discriminate.
  - refine (body_must_be_an_object eval JNull _).
    intros fields; discriminate.
Defined.

(** X7.  A request whose [expression] is a string is never answered with
    status 500, whatever the evaluator does: the status is 200 or 400. *)
Theorem string_expression_is_never_a_server_error eval fields s :
  posts fields s ->
  status (calculate eval (Return (JObj fields))) = 200 \/
  status (calculate eval (Return (JObj fields))) = 400.
Proof.
  intros Hp. unfold calculate. rewrite (handle_string eval fields s Hp).
  destruct (String.eqb s ""); [right; reflexivity|].
  destruct (whitelisted s); cbn [resp]; [apply evaluate_status|right; reflexivity].
Qed.

Lemma string_expression_is_never_a_server_error_witness :
  posts [("expression", JStr "2+")] "2+" /\
  forall eval,
    status (calculate eval (post "2+")) = 200 \/
    status (calculate eval (post "2+")) = 400.
Proof.
  split; [reflexivity|]. intros eval.
  exact (string_expression_is_never_a_server_error eval _ "2+" (posts_post _)).
Defined.

(** * Further properties of the evaluation

    What the answer to a whitelisted expression does not depend on, and
    what integer arithmetic, division and calls give. *)

Lemma flush_app p l l' : (flush p l ++ l')%list = flush p (l ++ l')%list.
Proof. destruct p; reflexivity. Qed.

(** One more space at the end of a line adds no token, one more [)] adds
    its token. *)
Lemma scan_snoc c : c = " "%char \/ c = ")"%char ->
  forall n cs, (List.length cs <= n)%nat ->
  forall p, scan p (cs ++ [c]) = (scan p cs ++ trailer c)%list.
Proof.
  intros Hc.
  assert (Hnil : forall p, scan p [c] = (scan p [] ++ trailer c)%list).
  { intros p. destruct Hc as [-> | ->]; destruct p; reflexivity. }
  induction n as [|n IH]; intros cs Hn p.
  - destruct cs; [apply Hnil|simpl in Hn; lia].
  - destruct cs as [|c0 rest]; [apply Hnil|].
    simpl in Hn. assert (Hrest : (List.length rest <= n)%nat) by lia.
    cbn [app]. rewrite (scan_cons p c0 (rest ++ [c])), (scan_cons p c0 rest).
    destruct (is_digit c0) eqn:Ed; [apply IH; exact Hrest|].
    destruct (Ascii.eqb_spec c0 ".") as [Hdot|Hdot].
    { assert (Hd :
        match (rest ++ [c])%list with
        | "."%char :: "."%char :: rest' => ELLIPSIS :: scan Idle rest'
        | d0 :: _ =>
            if is_digit d0 then scan (InFraction [] []) (rest ++ [c])
            else DOT :: scan Idle (rest ++ [c])
        | [] => [DOT]
        end
        = (match rest with
           | "."%char :: "."%char :: rest' => ELLIPSIS :: scan Idle rest'
           | d0 :: _ =>
               if is_digit d0 then scan (InFraction [] []) rest
               else DOT :: scan Idle rest
           | [] => [DOT]
           end ++ trailer c)%list).
      { destruct rest as [|c1 rest1].
        { destruct Hc as [-> | ->]; reflexivity. }
        cbn [app].
        destruct (Ascii.eqb_spec c1 ".") as [Hc1|Hc1].
        - subst c1. destruct rest1 as [|c2 rest2].
          { destruct Hc as [-> | ->]; reflexivity. }
          cbn [app].
          destruct (Ascii.eqb_spec c2 ".") as [Hc2|Hc2].
          + subst c2. cbn [app]. f_equal. apply IH. simpl in Hrest. lia.
          + replace (match c2 :: (rest2 ++ [c])%list with
                     | "."%char :: rest' => ELLIPSIS :: scan Idle rest'
                     | _ => if is_digit "."
                            then scan (InFraction [] [])
                                   ("."%char :: c2 :: (rest2 ++ [c])%list)
                            else DOT :: scan Idle
                                   ("."%char :: c2 :: (rest2 ++ [c])%list)
                     end)
              with (DOT :: scan Idle ("."%char :: c2 :: (rest2 ++ [c])%list)).
            2:{ destruct c2 as [[] [] [] [] [] [] [] []]; try reflexivity.
                exfalso. apply Hc2. reflexivity. }
            replace (match c2 :: rest2 with
                     | "."%char :: rest' => ELLIPSIS :: scan Idle rest'
                     | _ => if is_digit "."
                            then scan (InFraction [] []) ("."%char :: c2 :: rest2)
                            else DOT :: scan Idle ("."%char :: c2 :: rest2)
                     end)
              with (DOT :: scan Idle ("."%char :: c2 :: rest2)).
            2:{ destruct c2 as [[] [] [] [] [] [] [] []]; try reflexivity.
                exfalso. apply Hc2. reflexivity. }
            cbn [app]. f_equal. apply (IH ("."%char :: c2 :: rest2) Hrest).
        - replace (match c1 :: (rest1 ++ [c])%list with
                   | "."%char :: "."%char :: rest' => ELLIPSIS :: scan Idle rest'
                   | d0 :: _ =>
                       if is_digit d0
                       then scan (InFraction [] []) (c1 :: (rest1 ++ [c])%list)
                       else DOT :: scan Idle (c1 :: (rest1 ++ [c])%list)
                   | [] => [DOT]
                   end)
            with (if is_digit c1
                  then scan (InFraction [] []) (c1 :: (rest1 ++ [c])%list)
                  else DOT :: scan Idle (c1 :: (rest1 ++ [c])%list)).
          2:{ destruct c1 as [[] [] [] [] [] [] [] []]; try reflexivity.
              exfalso. apply Hc1. reflexivity. }
          replace (match c1 :: rest1 with
                   | "."%char :: "."%char :: rest' => ELLIPSIS :: scan Idle rest'
                   | d0 :: _ =>
                       if is_digit d0 then scan (InFraction [] []) (c1 :: rest1)
                       else DOT :: scan Idle (c1 :: rest1)
                   | [] => [DOT]
                   end)
            with (if is_digit c1 then scan (InFraction [] []) (c1 :: rest1)
                  else DOT :: scan Idle (c1 :: rest1)).
          2:{ destruct c1 as [[] [] [] [] [] [] [] []]; try reflexivity.
              exfalso. apply Hc1. reflexivity. }
          destruct (is_digit c1).
          + apply (IH (c1 :: rest1) Hrest).
          + cbn [app]. f_equal. apply (IH (c1 :: rest1) Hrest). }
      destruct p as [|ds|ds fs].
      - exact Hd.
      - apply IH. exact Hrest.
      - rewrite flush_app. f_equal. exact Hd. }
    rewrite flush_app. f_equal.
    destruct (Ascii.eqb c0 " "); [apply IH; exact Hrest|].
    destruct (Ascii.eqb c0 "+"); [cbn [app]; f_equal; apply IH; exact Hrest|].
    destruct (Ascii.eqb c0 "-"); [cbn [app]; f_equal; apply IH; exact Hrest|].
    destruct (Ascii.eqb c0 "("); [cbn [app]; f_equal; apply IH; exact Hrest|].
    destruct (Ascii.eqb c0 ")"); [cbn [app]; f_equal; apply IH; exact Hrest|].
    destruct (Ascii.eqb c0 "*").
    { destruct rest as [|c1 rest1].
      { destruct Hc as [-> | ->]; reflexivity. }
      cbn [app].
      destruct (Ascii.eqb_spec c1 "*") as [Hc1|Hc1].
      - subst c1. cbn [app]. f_equal. apply IH. simpl in Hrest. lia.
      - replace (match c1 :: (rest1 ++ [c])%list with
                 | "*"%char :: rest' => DOUBLESTAR :: scan Idle rest'
                 | _ => STAR :: scan Idle (c1 :: (rest1 ++ [c])%list)
                 end) with (STAR :: scan Idle (c1 :: (rest1 ++ [c])%list)).
        2:{ destruct c1 as [[] [] [] [] [] [] [] []]; try reflexivity.
            exfalso. apply Hc1. reflexivity. }
        replace (match c1 :: rest1 with
                 | "*"%char :: rest' => DOUBLESTAR :: scan Idle rest'
                 | _ => STAR :: scan Idle (c1 :: rest1)
                 end) with (STAR :: scan Idle (c1 :: rest1)).
        2:{ destruct c1 as [[] [] [] [] [] [] [] []]; try reflexivity.
            exfalso. apply Hc1. reflexivity. }
        cbn [app]. f_equal. apply (IH (c1 :: rest1) Hrest). }
    destruct (Ascii.eqb c0 "/").
    { destruct rest as [|c1 rest1].
      { destruct Hc as [-> | ->]; reflexivity. }
      cbn [app].
      destruct (Ascii.eqb_spec c1 "/") as [Hc1|Hc1].
      - subst c1. cbn [app]. f_equal. apply IH. simpl in Hrest. lia.
      - replace (match c1 :: (rest1 ++ [c])%list with
                 | "/"%char :: rest' => DOUBLESLASH :: scan Idle rest'
                 | _ => SLASH :: scan Idle (c1 :: (rest1 ++ [c])%list)
                 end) with (SLASH :: scan Idle (c1 :: (rest1 ++ [c])%list)).
        2:{ destruct c1 as [[] [] [] [] [] [] [] []]; try reflexivity.
            exfalso. apply Hc1. reflexivity. }
        replace (match c1 :: rest1 with
                 | "/"%char :: rest' => DOUBLESLASH :: scan Idle rest'
                 | _ => SLASH :: scan Idle (c1 :: rest1)
                 end) with (SLASH :: scan Idle (c1 :: rest1)).
        2:{ destruct c1 as [[] [] [] [] [] [] [] []]; try reflexivity.
            exfalso. apply Hc1. reflexivity. }
        cbn [app]. f_equal. apply (IH (c1 :: rest1) Hrest). }
    cbn [app]. f_equal. apply IH. exact Hrest.
Qed.

Lemma list_ascii_of_string_app a b :
  list_ascii_of_string (a ++ b)
  = (list_ascii_of_string a ++ list_ascii_of_string b)%list.
Proof. induction a as [|c a IH]; [reflexivity|]. simpl. rewrite IH. reflexivity. Qed.

Lemma scan_leading_spaces sp cs :
  forallb (Ascii.eqb " ") sp = true -> scan Idle (sp ++ cs) = scan Idle cs.
Proof.
  induction sp as [|c sp IH]; [reflexivity|]. intros H. cbn [forallb] in H.
  apply andb_prop in H. destruct H as [Hc H].
  apply Ascii.eqb_eq in Hc. subst c. cbn [app]. rewrite scan_cons.
  exact (IH H).
Qed.

Lemma scan_trailing_spaces sp : forallb (Ascii.eqb " ") sp = true ->
  forall p cs, scan p (cs ++ sp) = scan p cs.
Proof.
  induction sp as [|c sp IH]; intros H p cs.
  - rewrite app_nil_r. reflexivity.
  - cbn [forallb] in H. apply andb_prop in H. destruct H as [Hc H].
    apply Ascii.eqb_eq in Hc. subst c.
    change (cs ++ " "%char :: sp)%list with (cs ++ [" "%char] ++ sp)%list.
    rewrite app_assoc, (IH H).
    rewrite (scan_snoc " " (or_introl eq_refl) _ cs (Nat.le_refl _)).
    apply app_nil_r.
Qed.

Lemma tokens_padded l s r :
  blank l = true -> blank r = true -> tokens (l ++ s ++ r) = tokens s.
Proof.
  unfold blank, tokens. intros Hl Hr.
  rewrite !list_ascii_of_string_app.
  rewrite (scan_leading_spaces _ _ Hl). apply (scan_trailing_spaces _ Hr).
Qed.

(** X8.  Spaces before and after a non-empty whitelisted expression do
    not change the answer: the handler does not trim them, the evaluator
    skips them. *)
Theorem surrounding_spaces_are_ignored py fields fields' l s r :
  posts fields s -> posts fields' (l ++ s ++ r) ->
  s <> "" -> whitelisted s = true -> blank l = true -> blank r = true ->
  calculate (py_eval py) (Return (JObj fields'))
  = calculate (py_eval py) (Return (JObj fields)).
Proof.
  intros Hp Hp' Hs Hw Hl Hr.
  assert (Hw' : whitelisted (l ++ s ++ r) = true).
  { unfold whitelisted, blank in *. rewrite !list_ascii_of_string_app.
    rewrite !forallb_app, Hw, (spaces_whitelisted _ Hl), (spaces_whitelisted _ Hr).
    reflexivity. }
  assert (Hs' : l ++ s ++ r <> "").
  { intros H. apply (f_equal list_ascii_of_string) in H.
    rewrite !list_ascii_of_string_app in H.
    apply app_eq_nil in H. destruct H as [_ H].
    apply app_eq_nil in H. destruct H as [H _].
    apply Hs. rewrite <- (string_of_list_ascii_of_string s), H. reflexivity. }
  rewrite (calculate_py py fields s Hp Hw Hs).
  rewrite (calculate_py py fields' _ Hp' Hw' Hs').
  apply evaluate_ext.
  rewrite (py_eval_whitelisted py _ Hw'), (py_eval_whitelisted py _ Hw).
  rewrite (tokens_padded l s r Hl Hr). reflexivity.
Qed.

Lemma surrounding_spaces_are_ignored_witness :
  blank "  " = true /\ blank " " = true /\
  forall py, calculate (py_eval py) (post "  2+2 ")
             = calculate (py_eval py) (post "2+2").
Proof.
  assert (Hs : "2+2" <> "") by discriminate.
  split; [reflexivity|]. split; [reflexivity|]. intros py.
  exact (surrounding_spaces_are_ignored py _ _ "  " "2+2" " "
           (posts_post "2+2") (posts_post "  2+2 ") Hs eq_refl eq_refl eq_refl).
Defined.

Lemma int_value_eval a n : int_value a = Some n -> arith_eval a = Return (VInt n).
Proof.
  revert n. induction a as [lit|a IH|l IHl op r IHr]; simpl; intros n.
  - unfold number_value. destruct (fraction lit); [discriminate|].
    intros [= <-]. reflexivity.
  - destruct (int_value a) as [x|]; [|discriminate]. intros [= <-].
    rewrite (IH x eq_refl). reflexivity.
  - destruct (int_value l) as [x|]; [|discriminate].
    destruct (int_value r) as [y|]; [|discriminate].
    rewrite (IHl x eq_refl), (IHr y eq_refl).
    destruct op; try discriminate; intros [= <-]; reflexivity.
Qed.

Lemma calculate_reference py fields s a :
  posts fields s -> whitelisted s = true ->
  spec_parse (tokens s) = Some a -> plain_literals a = true ->
  stack_error py (tokens s) = None -> syntax_limit (tokens s) = false ->
  calculate (py_eval py) (Return (JObj fields))
  = evaluate (fun _ => arith_eval a) (JStr s).
Proof.
  intros Hp Hw Hs Ha Hk Hl.
  assert (Hne : s <> "") by (intros ->; discriminate).
  rewrite (calculate_py py fields s Hp Hw Hne). apply evaluate_ext.
  rewrite (py_eval_within py s Hw Hk Hl), (spec_parse_refines _ _ Hs Ha).
  apply eval_to_expr.
Qed.

(** Beyond a limit of the interpreter the answer is a failure. *)
Lemma calculate_beyond_limits py fields s :
  posts fields s -> whitelisted s = true -> s <> "" ->
  (exists e, stack_error py (tokens s) = Some e) \/
  syntax_limit (tokens s) = true ->
  status (calculate (py_eval py) (Return (JObj fields))) = 400.
Proof.
  intros Hp Hw Hne H.
  assert (Hr : exists e, py_eval py s = Raise e).
  { rewrite (py_eval_whitelisted py s Hw).
    destruct (stack_error py (tokens s)) as [e|]; [exists e; reflexivity|].
    destruct H as [[e H]|H]; [discriminate|]. rewrite H. eexists. reflexivity. }
  destruct Hr as [e Hr].
  rewrite (calculate_py py fields s Hp Hw Hne), (evaluate_raise _ s e Hr).
  destruct (is_ZeroDivisionError e); [reflexivity|].
  destruct (is_SyntaxError e); reflexivity.
Qed.

(** X9.  Sums, differences, products and negations of integer literals
    are computed in exact integer arithmetic: within the limits of the
    interpreter (no stack overflows, at most 200 nested parentheses, no
    literal of more than 4300 digits) the answer is status 200 with the
    integer itself, also beyond 2^53, never a rounded float, as long as the
    integer has at most 4300 digits; a larger one cannot be written, and the
    answer is status 400 with the text of the [ValueError]. *)
Theorem integer_arithmetic_is_exact py fields s a n :
  posts fields s -> whitelisted s = true ->
  spec_parse (tokens s) = Some a -> plain_literals a = true ->
  stack_error py (tokens s) = None -> syntax_limit (tokens s) = false ->
  int_value a = Some n ->
  (Z.abs n < 10 ^ 4300 ->
   calculate (py_eval py) (Return (JObj fields))
   = Response (JObj [("result", JInt n)]) 200) /\
  (10 ^ 4300 <= Z.abs n ->
   calculate (py_eval py) (Return (JObj fields))
   = error_response
       "Exceeds the limit (4300 digits) for integer string conversion; use sys.set_int_max_str_digits() to increase the limit"
       400).
Proof.
  intros Hp Hw Hs Ha Hk Hl Hn.
  rewrite (calculate_reference py fields s a Hp Hw Hs Ha Hk Hl).
  rewrite (evaluate_return _ s (VInt n)) by (apply int_value_eval, Hn).
  cbn [is_infinite_float to_json]. unfold max_str_digits. split; intros H.
  - rewrite (proj2 (Z.ltb_lt _ _) H). reflexivity.
  - rewrite (proj2 (Z.ltb_ge _ _) H). reflexivity.
Qed.

Lemma integer_arithmetic_is_exact_witness :
  let s := "-(9007199254740993*3)+1" in
  let lit ds := Lit (Literal (list_ascii_of_string ds) None) in
  let a := Bin (Neg (Bin (lit "9007199254740993") Times (lit "3")))
               Plus (lit "1") in
  let big := (ones 2200 ++ "*" ++ ones 2200)%string in
  let r := digits_value (list_ascii_of_string (ones 2200)) in
  spec_parse (tokens s) = Some a /\ plain_literals a = true /\
  syntax_limit (tokens s) = false /\
  int_value a = Some (- 27021597764222978) /\
  - 27021597764222978 < - 2 ^ 53 /\
  spec_parse (tokens big) = Some (Bin (lit (ones 2200)) Times (lit (ones 2200))) /\
  syntax_limit (tokens big) = false /\
  10 ^ 4300 <= Z.abs (r * r) /\
  (forall py, stack_error py (tokens s) = None /\
              calculate (py_eval py) (post s)
              = Response (JObj [("result", JInt (- 27021597764222978))]) 200) /\
  (forall py, stack_error py (tokens big) = None /\
              status (calculate (py_eval py) (post big)) = 400).
Proof.
  intros s lit a big r.
  assert (Hw : whitelisted s = true) by (vm_compute; reflexivity).
  assert (Hs : spec_parse (tokens s) = Some a) by (vm_compute; reflexivity).
  assert (Ha : plain_literals a = true) by (vm_compute; reflexivity).
  assert (Hl : syntax_limit (tokens s) = false) by (vm_compute; reflexivity).
  assert (Hn : int_value a = Some (- 27021597764222978))
    by (vm_compute; reflexivity).
  assert (H53 : - 27021597764222978 < - 2 ^ 53) by (vm_compute; reflexivity).
  assert (Hw' : whitelisted big = true) by (vm_compute; reflexivity).
  assert (Hs' : spec_parse (tokens big)
                = Some (Bin (lit (ones 2200)) Times (lit (ones 2200))))
    by (vm_compute; reflexivity).
  assert (Ha' : plain_literals (Bin (lit (ones 2200)) Times (lit (ones 2200)))
                = true) by (vm_compute; reflexivity).
  assert (Hl' : syntax_limit (tokens big) = false) by (vm_compute; reflexivity).
  assert (Hn' : int_value (Bin (lit (ones 2200)) Times (lit (ones 2200)))
                = Some (r * r)) by reflexivity.
  assert (Hbig : 10 ^ 4300 <= Z.abs (r * r))
    by (apply Z.leb_le; vm_compute; reflexivity).
  repeat (split; [assumption|]).
  split; intros py.
  - assert (Hk : stack_error py (tokens s) = None) by reflexivity.
    split; [exact Hk|].
    apply (integer_arithmetic_is_exact py _ s a _ (posts_post _) Hw Hs Ha Hk Hl Hn).
    vm_compute. reflexivity.
  - assert (Hk : stack_error py (tokens big) = None)
      by (vm_compute; reflexivity).
    split; [exact Hk|].
    unfold post.
    rewrite (proj2 (integer_arithmetic_is_exact py _ big _ _ (posts_post _)
                      Hw' Hs' Ha' Hk Hl' Hn') Hbig).
    reflexivity.
Defined.

Lemma divide_returns_float x y v :
  is_real x = true -> is_real y = true ->
  apply_operator Divide x y = Return v -> exists q, v = VFloat q.
Proof.
  unfold apply_operator.
  destruct x as [a|a| | |], y as [b|b| | |]; try discriminate; intros _ _;
    cbn [binop_of real_arith int_arith float_arith as_float bind];
    unfold int_to_float;
    repeat match goal with
           | |- context [if ?c then _ else _] => destruct c; cbn [bind raise]
           end;
    try discriminate; intros [= <-]; eexists; reflexivity.
Qed.

(** X10.  [/] is true division: when the last operation of a well-formed
    expression is a division and the answer is a success, the result is a
    float, also when the quotient is a whole number. *)
Theorem division_yields_a_float py fields s l r :
  posts fields s -> whitelisted s = true ->
  spec_parse (tokens s) = Some (Bin l Divide r) ->
  plain_literals (Bin l Divide r) = true ->
  status (calculate (py_eval py) (Return (JObj fields))) = 200 ->
  exists q, calculate (py_eval py) (Return (JObj fields))
            = Response (JObj [("result", JFloat q)]) 200.
Proof.
  intros Hp Hw Hs Ha.
  assert (Hne : s <> "") by (intros ->; discriminate).
  destruct (stack_error py (tokens s)) as [e0|] eqn:Hk.
  { rewrite (calculate_beyond_limits py fields s Hp Hw Hne); [discriminate|].
    left. exists e0. exact Hk. }
  destruct (syntax_limit (tokens s)) eqn:Hl.
  { rewrite (calculate_beyond_limits py fields s Hp Hw Hne); [discriminate|].
    right. exact Hl. }
  rewrite (calculate_reference py fields s _ Hp Hw Hs Ha Hk Hl).
  assert (Hcase : (exists v, arith_eval (Bin l Divide r) = Return v) \/
                  (exists e, arith_eval (Bin l Divide r) = Raise e))
    by (destruct (arith_eval (Bin l Divide r)); eauto).
  destruct Hcase as [[v Ev]|[e Ev]].
  - rewrite (evaluate_return _ s v Ev).
    assert (Hq : exists q, v = VFloat q).
    { cbn [arith_eval] in Ev.
      destruct (arith_eval l) as [x|] eqn:El; [|discriminate].
      destruct (arith_eval r) as [y|] eqn:Er; [|discriminate].
      cbn [bind] in Ev.
      exact (divide_returns_float x y v (arith_eval_real _ _ El)
               (arith_eval_real _ _ Er) Ev). }
    destruct Hq as [q ->].
    destruct (is_infinite_float (VFloat q)); [discriminate|].
    intros _. exists q. reflexivity.
  - rewrite (evaluate_raise _ s e Ev).
    destruct (is_ZeroDivisionError e); [discriminate|].
    destruct (is_SyntaxError e); discriminate.
Qed.

Lemma division_yields_a_float_witness :
  let lit d := Lit (Literal [d] None) in
  spec_parse (tokens "4/2") = Some (Bin (lit "4"%char) Divide (lit "2"%char)) /\
  (forall py, status (calculate (py_eval py) (post "4/2")) = 200) /\
  (forall py, exists q, calculate (py_eval py) (post "4/2")
                        = Response (JObj [("result", JFloat q)]) 200).
Proof.
  intros lit.
  assert (Hs : spec_parse (tokens "4/2")
               = Some (Bin (lit "4"%char) Divide (lit "2"%char)))
    by (vm_compute; reflexivity).
  assert (H : forall py, status (calculate (py_eval py) (post "4/2")) = 200)
    by (intros py; vm_compute; reflexivity).
  split; [exact Hs|]. split; [exact H|]. intros py.
  exact (division_yields_a_float py _ "4/2" _ _ (posts_post _) eq_refl Hs
           eq_refl (H py)).
Defined.

Lemma call_raises py f arg : exists e, call py f arg = Raise e.
Proof.
  unfold call. destruct arg as [[[| |] a]|]; try (eexists; reflexivity).
  destruct a; eexists; reflexivity.
Qed.

Lemma has_call_raises py e :
  has_call e = true -> exists x, eval_expr py e = Raise x.
Proof.
  induction e as [v| |op e IH|l IHl op r IHr|f IHf|f IHf form a IHa];
    cbn [has_call eval_expr]; intros H; try discriminate.
  - destruct (IH H) as [x ->]. exists x. reflexivity.
  - destruct (eval_expr py l) as [vl|xl] eqn:El; [|exists xl; reflexivity].
    cbn [bind].
    destruct (has_call l); [destruct (IHl eq_refl); discriminate|].
    destruct (IHr H) as [x ->]. exists x. reflexivity.
  - destruct (eval_expr py f) as [vf|xf]; [|exists xf; reflexivity].
    cbn [bind]. apply call_raises.
  - destruct (eval_expr py f) as [vf|xf]; [|exists xf; reflexivity].
    cbn [bind].
    destruct (eval_expr py a) as [va|xa]; [|exists xa; reflexivity].
    cbn [bind]. apply call_raises.
Qed.

(** X11.  On the whitelisted alphabet nothing can be called: an
    expression with a call in it, [2(3+4)] for one, is never a success.  The
    evaluator raises, and the answer has status 400. *)
Theorem calls_never_succeed py fields s e :
  posts fields s -> whitelisted s = true ->
  py_parse (tokens s) = Some e -> has_call e = true ->
  (exists x, py_eval py s = Raise x) /\
  status (calculate (py_eval py) (Return (JObj fields))) = 400.
Proof.
  intros Hp Hw He Hc.
  assert (Hne : s <> "") by (intros ->; discriminate).
  assert (Hr : exists x, py_eval py s = Raise x).
  { rewrite (py_eval_whitelisted py s Hw), He.
    destruct (stack_error py (tokens s)) as [e0|]; [exists e0; reflexivity|].
    destruct (syntax_limit (tokens s)); [eexists; reflexivity|].
    apply has_call_raises, Hc. }
  destruct Hr as [x Hr].
  split; [exists x; exact Hr|].
  rewrite (calculate_py py fields s Hp Hw Hne), (evaluate_raise _ s x Hr).
  destruct (is_ZeroDivisionError x); [reflexivity|].
  destruct (is_SyntaxError x); reflexivity.
Qed.

Lemma calls_never_succeed_witness :
  let e := Call1 (Constant (VInt 2)) Positional
             (BinOp (Constant (VInt 3)) Add (Constant (VInt 4))) in
  py_parse (tokens "2(3+4)") = Some e /\ has_call e = true /\
  forall py, status (calculate (py_eval py) (post "2(3+4)")) = 400.
Proof.
  intros e.
  assert (He : py_parse (tokens "2(3+4)") = Some e) by (vm_compute; reflexivity).
  split; [exact He|]. split; [reflexivity|]. intros py.
  exact (proj2 (calls_never_succeed py _ "2(3+4)" e (posts_post _) eq_refl He
                  eq_refl)).
Defined.

(** ** Parentheses around an expression *)

Section ChainExtends.

Context {T : Type}.
Variable ops : token -> option (T -> T -> T).
Variable operand : parser T.
Hypothesis ops_rpar : ops RPAR = None.
Hypothesis operand_extends : extends_rpar operand.

Lemma chain_rest_extends n : forall acc ts e r,
  chain_rest ops operand n acc ts = Some (e, r) ->
  chain_rest ops operand n acc (ts ++ [RPAR]) = Some (e, (r ++ [RPAR])%list).
Proof.
  induction n as [|n IH]; intros acc ts e r H;
    (destruct ts as [|t ts1];
     [injection H as <- <-; cbn [app chain_rest]; rewrite ops_rpar; reflexivity|]);
    cbn [app chain_rest] in *; destruct (ops t) as [mk|]; try discriminate;
    try (injection H as <- <-; reflexivity).
  destruct (operand ts1) as [[x ts2]|] eqn:E; [|discriminate].
  rewrite (operand_extends _ _ _ E). apply IH. exact H.
Qed.

Lemma chain_extends n : extends_rpar (chain ops operand n).
Proof.
  intros ts e r H. unfold chain in *.
  destruct (operand ts) as [[x ts1]|] eqn:E; [|discriminate].
  rewrite (operand_extends _ _ _ E). apply chain_rest_extends. exact H.
Qed.

Lemma chain_nil n : operand [] = None -> chain ops operand n [] = None.
Proof. unfold chain. intros ->. reflexivity. Qed.

End ChainExtends.

Section PrimaryExtends.

Variable sum : parser expr.
Hypothesis sum_extends : extends_rpar sum.
Hypothesis sum_nil : sum [] = None.

Lemma closing_extends ts e r :
  closing (sum ts) = Some (e, r) ->
  closing (sum (ts ++ [RPAR])%list) = Some (e, (r ++ [RPAR])%list).
Proof.
  intros H. apply closing_inv in H. rewrite (sum_extends _ _ _ H). reflexivity.
Qed.

Lemma py_atom_extends : extends_rpar (py_atom sum).
Proof.
  intros ts e r H. unfold py_atom in *.
  destruct ts as [|t ts1]; [discriminate|].
  destruct t; try discriminate; cbn [app].
  - destruct (py_number lit); [|discriminate]. injection H as <- <-. reflexivity.
  - destruct ts1 as [|t ts2].
    + rewrite sum_nil in H. discriminate.
    + destruct t; cbn [app];
        try (injection H as <- <-; reflexivity);
        match type of H with
        | closing (sum ?x) = _ => apply (closing_extends x); exact H
        end.
  - injection H as <- <-. reflexivity.
Qed.

Lemma call_rest_extends n : forall f ts e r,
  call_rest sum n f ts = Some (e, r) ->
  call_rest sum n f (ts ++ [RPAR]) = Some (e, (r ++ [RPAR])%list).
Proof.
  induction n as [|n IH]; intros f ts e r H.
  - destruct ts as [|t ts0]; [injection H as <- <-; reflexivity|].
    destruct t; try discriminate; injection H as <- <-; reflexivity.
  - destruct ts as [|t ts0]; [injection H as <- <-; reflexivity|].
    destruct t; try (injection H as <- <-; reflexivity).
    cbn [app call_rest] in *.
    destruct ts0 as [|t0 ts1].
    + rewrite sum_nil in H. discriminate.
    + destruct t0; cbn [app];
        try (apply IH; exact H);
        match type of H with
        | context [closing (sum ?x)] =>
            destruct (closing (sum x)) as [[a ts2]|] eqn:E; [|discriminate];
            pose proof (closing_extends x _ _ E) as E'; cbn [app] in E';
            rewrite E'; apply IH; exact H
        end.
Qed.

Lemma py_power_extends factor n :
  extends_rpar factor -> extends_rpar (py_power sum factor n).
Proof.
  intros Hf ts e r H. unfold py_power in *.
  destruct (py_atom sum ts) as [[a ts1]|] eqn:Ea; [|discriminate].
  rewrite (py_atom_extends _ _ _ Ea).
  destruct (call_rest sum n a ts1) as [[p0 rr]|] eqn:Ec; [|discriminate].
  rewrite (call_rest_extends _ _ _ _ _ Ec).
  destruct rr as [|t rr1]; [injection H as <- <-; reflexivity|].
  destruct t; cbn [app]; try (injection H as <- <-; reflexivity).
  destruct (factor rr1) as [[x ts3]|] eqn:Ef; [|discriminate].
  rewrite (Hf _ _ _ Ef). injection H as <- <-. reflexivity.
Qed.

End PrimaryExtends.

Lemma sum_op_rpar : sum_op RPAR = None.
Proof. reflexivity. Qed.

Lemma term_op_rpar : term_op RPAR = None.
Proof. reflexivity. Qed.

Lemma py_factor_nil n : py_factor n [] = None.
Proof. destruct n; reflexivity. Qed.

Lemma py_sum_nil n : py_sum n [] = None.
Proof.
  unfold py_sum, py_term. apply chain_nil, chain_nil, py_factor_nil.
Qed.

Lemma py_sum_rpar n ts : py_sum n (RPAR :: ts) = None.
Proof. destruct n; reflexivity. Qed.

Lemma py_factor_extends n : extends_rpar (py_factor n).
Proof.
  induction n as [|n IH]; intros ts e r H; [discriminate|].
  assert (Hsum : extends_rpar (py_sum n)).
  { apply chain_extends; [exact sum_op_rpar|].
    apply chain_extends; [exact term_op_rpar|exact IH]. }
  change (py_factor (S n) ts) with
    (match ts with
     | PLUS :: ts1 =>
         match py_factor n ts1 with
         | Some (e, ts2) => Some (UnaryOp UAdd e, ts2)
         | None => None
         end
     | MINUS :: ts1 =>
         match py_factor n ts1 with
         | Some (e, ts2) => Some (UnaryOp USub e, ts2)
         | None => None
         end
     | _ => py_power (py_sum n) (py_factor n) n ts
     end) in H.
  change (py_factor (S n) (ts ++ [RPAR])) with
    (match (ts ++ [RPAR])%list with
     | PLUS :: ts1 =>
         match py_factor n ts1 with
         | Some (e, ts2) => Some (UnaryOp UAdd e, ts2)
         | None => None
         end
     | MINUS :: ts1 =>
         match py_factor n ts1 with
         | Some (e, ts2) => Some (UnaryOp USub e, ts2)
         | None => None
         end
     | _ => py_power (py_sum n) (py_factor n) n (ts ++ [RPAR])%list
     end).
  assert (Hpow : extends_rpar (py_power (py_sum n) (py_factor n) n))
    by (apply py_power_extends; [exact Hsum|apply py_sum_nil|exact IH]).
  destruct ts as [|t ts1]; [discriminate|].
  destruct t; cbn [app]; try (apply (Hpow (_ :: ts1)); exact H).
  - destruct (py_factor n ts1) as [[x ts2]|] eqn:E; [|discriminate].
    rewrite (IH _ _ _ E). injection H as <- <-. reflexivity.
  - destruct (py_factor n ts1) as [[x ts2]|] eqn:E; [|discriminate].
    rewrite (IH _ _ _ E). injection H as <- <-. reflexivity.
Qed.

Lemma py_sum_extends n : extends_rpar (py_sum n).
Proof.
  apply chain_extends; [exact sum_op_rpar|].
  apply chain_extends; [exact term_op_rpar|apply py_factor_extends].
Qed.

Lemma chain_rest_nil {T : Type} ops operand n (acc : T) :
  chain_rest ops operand n acc [] = Some (acc, []).
Proof. destruct n; reflexivity. Qed.

Lemma py_factor_group n ts e :
  py_sum n ts = Some (e, []) ->
  py_factor (S n) (LPAR :: ts ++ [RPAR]) = Some (e, []).
Proof.
  intros H.
  pose proof (py_sum_extends n _ _ _ H) as H'. cbn [app] in H'.
  change (py_factor (S n) (LPAR :: ts ++ [RPAR]))
    with (py_power (py_sum n) (py_factor n) n (LPAR :: ts ++ [RPAR])).
  unfold py_power, py_atom.
  destruct ts as [|t ts1]; [rewrite py_sum_nil in H; discriminate|].
  destruct t; cbn [app] in *;
    try (rewrite H'; cbn [closing]; destruct n; reflexivity).
  rewrite py_sum_rpar in H. discriminate.
Qed.

(** An expression in parentheses is parsed to the tree of the
    expression. *)
Lemma py_parse_parenthesised ts e :
  py_parse ts = Some e -> py_parse (LPAR :: ts ++ [RPAR]) = Some e.
Proof.
  unfold py_parse. intros H.
  destruct (py_sum (S (List.length ts)) ts) as [[e' r]|] eqn:E; [|discriminate].
  destruct r; [|discriminate]. injection H as ->.
  set (m := S (List.length (ts ++ [RPAR]))).
  assert (Hm : py_sum m ts = Some (e, [])).
  { rewrite (py_sum_fuel ts m); [exact E|].
    unfold m. rewrite length_app. simpl. lia. }
  change (S (List.length (LPAR :: ts ++ [RPAR]))) with (S m).
  unfold py_sum, py_term, chain.
  rewrite (py_factor_group m ts e Hm), !chain_rest_nil. reflexivity.
Qed.

Lemma tokens_parenthesised s :
  tokens ("(" ++ s ++ ")") = LPAR :: (tokens s ++ [RPAR])%list.
Proof.
  unfold tokens. rewrite !list_ascii_of_string_app.
  transitivity (LPAR :: scan Idle (list_ascii_of_string s ++ [")"%char]));
    [reflexivity|].
  rewrite (scan_snoc ")" (or_intror eq_refl) _ _ (Nat.le_refl _)). reflexivity.
Qed.

Lemma too_deep_mono ts : forall d d',
  (d <= d')%nat -> too_deep d ts = true -> too_deep d' ts = true.
Proof.
  induction ts as [|t ts IH]; intros d d' Hd; [discriminate|].
  destruct t; cbn [too_deep]; try apply (IH d d' Hd).
  - intros H. apply orb_true_iff in H. apply orb_true_iff.
    destruct H as [H|H].
    + left. apply Nat.leb_le in H. apply Nat.leb_le. lia.
    + right. apply (IH (S d) (S d')); [lia|exact H].
  - apply IH. lia.
Qed.

Lemma too_deep_app ts us : forall d,
  too_deep d (ts ++ us) = false -> too_deep d ts = false.
Proof.
  induction ts as [|t ts IH]; intros d; [reflexivity|].
  destruct t; cbn [app too_deep]; try apply IH.
  intros H. apply orb_false_iff in H. destruct H as [H1 H2].
  rewrite H1. apply IH, H2.
Qed.

(** What is within the limits in parentheses is within them without. *)
Lemma syntax_limit_group ts :
  syntax_limit (LPAR :: ts ++ [RPAR]) = false -> syntax_limit ts = false.
Proof.
  unfold syntax_limit. cbn [too_deep existsb long_literal orb].
  rewrite existsb_app. intros H.
  apply orb_false_iff in H. destruct H as [H1 H2].
  apply orb_false_iff in H1. destruct H1 as [_ H1].
  apply orb_false_iff in H2. destruct H2 as [H2 _].
  rewrite H2, orb_false_r.
  apply too_deep_app in H1.
  destruct (too_deep 0 ts) eqn:E; [|reflexivity].
  rewrite (too_deep_mono ts 0 1 (Nat.le_succ_diag_r 0) E) in H1. discriminate.
Qed.

(** X12.  Parentheses around a whole expression only group: when the
    evaluator's grammar accepts a whitelisted expression, and the expression
    in one more pair of parentheses is still within the limits of the
    interpreter (no stack overflows on either text, and the parentheses nest
    no deeper than 200), both texts get the same answer. *)
Theorem parentheses_only_group py fields fields' s e :
  posts fields s -> posts fields' ("(" ++ s ++ ")") ->
  whitelisted s = true -> py_parse (tokens s) = Some e ->
  stack_error py (tokens s) = None ->
  stack_error py (tokens ("(" ++ s ++ ")")) = None ->
  syntax_limit (tokens ("(" ++ s ++ ")")) = false ->
  calculate (py_eval py) (Return (JObj fields'))
  = calculate (py_eval py) (Return (JObj fields)).
Proof.
  intros Hp Hp' Hw He Hk Hk' Hl'.
  assert (Hs : s <> "") by (intros ->; discriminate).
  assert (Hw' : whitelisted ("(" ++ s ++ ")") = true).
  { unfold whitelisted in *. rewrite !list_ascii_of_string_app.
    rewrite !forallb_app, Hw. reflexivity. }
  assert (Hs' : "(" ++ s ++ ")" <> "") by discriminate.
  assert (Hl : syntax_limit (tokens s) = false).
  { apply syntax_limit_group. rewrite <- tokens_parenthesised. exact Hl'. }
  rewrite (calculate_py py fields s Hp Hw Hs).
  rewrite (calculate_py py fields' _ Hp' Hw' Hs').
  apply evaluate_ext.
  rewrite (py_eval_within py _ Hw' Hk' Hl'), (py_eval_within py _ Hw Hk Hl).
  rewrite tokens_parenthesised, (py_parse_parenthesised _ _ He), He.
  reflexivity.
Qed.

Lemma parentheses_only_group_witness :
  let e := BinOp (Constant (VInt 1)) Sub
             (BinOp (Constant (VInt 2)) Mult (Constant (VInt 3))) in
  py_parse (tokens "1-2*3") = Some e /\
  syntax_limit (tokens "(1-2*3)") = false /\
  forall py,
    stack_error py (tokens "1-2*3") = None /\
    stack_error py (tokens "(1-2*3)") = None /\
    calculate (py_eval py) (post "(1-2*3)")
    = calculate (py_eval py) (post "1-2*3").
Proof.
  intros e.
  assert (He : py_parse (tokens "1-2*3") = Some e) by (vm_compute; reflexivity).
  assert (Hl : syntax_limit (tokens "(1-2*3)") = false)
    by (vm_compute; reflexivity).
  split; [exact He|]. split; [exact Hl|]. intros py.
  assert (Hk : stack_error py (tokens "1-2*3") = None) by reflexivity.
  assert (Hk' : stack_error py (tokens "(1-2*3)") = None) by reflexivity.
  split; [exact Hk|]. split; [exact Hk'|].
  exact (parentheses_only_group py _ _ "1-2*3" e
           (posts_post "1-2*3") (posts_post "(1-2*3)") eq_refl He Hk Hk' Hl).
Defined.
